(** * ZB websocket adapter: shallow embedding and verified properties

    The development follows [zb_websocket.go] of package [zb]: the reader
    loop [WsHandleData], the default subscription builder, the request
    signer, the JSON repair pass and the authenticated websocket
    operations.  Frames are byte lists, Go strings that only serve as names
    are Rocq strings, [int64] values are integers with their wrap-around
    written out where the code multiplies, and calls into collaborators
    (encoding/json, the websocket connection, the crypto helpers) go through
    one interface that every definition takes as a parameter. *)

From Stdlib Require Import ZArith Strings.Byte Strings.String Strings.Ascii.
From Stdlib Require Import Floats.PrimFloat Sorting.Sorted.
From stdpp Require Import base option list strings gmap.

Local Open Scope Z_scope.

(* ===================================================================== *)
(** * Bytes and byte strings *)
(* ===================================================================== *)

#[global] Instance byte_eq_dec : EqDecision byte := Byte.byte_eq_dec.

Abbreviation bytes := (list byte).

(** The bytes of a name, e.g. a channel label, as they travel on the wire. *)
Definition bytes_of (s : string) : bytes := list_byte_of_string s.

Definition quote : byte := x22.      (* the quotation character *)
Definition lbrack : byte := x5b.     (* [ *)
Definition rbrack : byte := x5d.     (* ] *)
Definition lbrace : byte := x7b.     (* { *)
Definition rbrace : byte := x7d.     (* } *)
Definition newline : byte := x0a.

(* ===================================================================== *)
(** * regexp: the fragment of Go's regular expressions the adapter uses *)
(* ===================================================================== *)

(** Go's [regexp] has leftmost-first (preference ordered) semantics:
    [Find] returns the match that starts earliest and, among those, the one
    a backtracking matcher would find first.  [remainders r s] lists, in
    that preference order, what is left of [s] after each way of matching
    [r] at its beginning.  The pattern of this package only contains ASCII
    literals and a dot, so matching byte by byte agrees with matching rune
    by rune: an ASCII byte is never part of a longer UTF-8 sequence, and a
    byte that does not decode counts as one character. *)
Module regexp.

Inductive Regexp : Type :=
| Literal (b : byte)
| AnyCharNotNL
| Concat (r1 r2 : Regexp)
| Alternate (r1 r2 : Regexp)
| Star (r : Regexp)
| Capture (r : Regexp).

(** Greedy iteration: one more round first, stopping second.  A round
    that consumes nothing is not repeated. *)
Fixpoint star_rem (step : bytes -> list bytes) (fuel : nat) (s : bytes)
  : list bytes :=
  match fuel with
  | O => [s]
  | S fuel' =>
      (step s ≫= fun t =>
         if decide (length t < length s)%nat then star_rem step fuel' t
         else [])
      ++ [s]
  end.

Fixpoint remainders (r : Regexp) (s : bytes) : list bytes :=
  match r with
  | Literal b =>
      match s with
      | c :: t => if decide (c = b) then [t] else []
      | [] => []
      end
  | AnyCharNotNL =>
      match s with
      | c :: t => if decide (c = newline) then [] else [t]
      | [] => []
      end
  | Concat r1 r2 => remainders r1 s ≫= remainders r2
  | Alternate r1 r2 => remainders r1 s ++ remainders r2 s
  | Star r1 => star_rem (remainders r1) (length s) s
  | Capture r1 => remainders r1 s
  end.

(** Unanchored search from position [pos]: the first position with a
    match wins, and there the preferred match. *)
Fixpoint find_at (r : Regexp) (pos : nat) (s : bytes) : option (nat * nat) :=
  match head (remainders r s) with
  | Some rest => Some (pos, pos + (length s - length rest))%nat
  | None =>
      match s with
      | [] => None
      | _ :: t => find_at r (S pos) t
      end
  end.

(** [FindIndex] gives the bounds [loc[0], loc[1]] of the leftmost match. *)
Definition FindIndex (r : Regexp) (b : bytes) : option (nat * nat) :=
  find_at r 0 b.

(** [Find] gives the text [b[loc[0]:loc[1]]] of the leftmost match, and
    [None] where Go returns nil. *)
Definition Find (r : Regexp) (b : bytes) : option bytes :=
  match FindIndex r b with
  | Some (i, j) => Some (take (j - i) (drop i b))
  | None => None
  end.

(** What it means for a text to match, independently of any search
    order.  The rounds of a star are taken non-empty, which describes
    the same texts. *)
Inductive Matches : Regexp -> bytes -> Prop :=
| MLiteral b : Matches (Literal b) [b]
| MAnyCharNotNL c : c <> newline -> Matches AnyCharNotNL [c]
| MConcat r1 r2 m1 m2 :
    Matches r1 m1 -> Matches r2 m2 -> Matches (Concat r1 r2) (m1 ++ m2)
| MAlternateL r1 r2 m : Matches r1 m -> Matches (Alternate r1 r2) m
| MAlternateR r1 r2 m : Matches r2 m -> Matches (Alternate r1 r2) m
| MStarNil r : Matches (Star r) []
| MStarCons r m1 m2 :
    m1 <> [] -> Matches r m1 -> Matches (Star r) m2 ->
    Matches (Star r) (m1 ++ m2)
| MCapture r m : Matches r m -> Matches (Capture r) m.

End regexp.

(* ===================================================================== *)
(** * strings: Replace, Contains, Split *)
(* ===================================================================== *)

Fixpoint has_prefix (p s : bytes) : bool :=
  match p, s with
  | [], _ => true
  | a :: p', b :: s' => bool_decide (a = b) && has_prefix p' s'
  | _ :: _, [] => false
  end.

Fixpoint Replace_fuel (fuel : nat) (s old new : bytes) (n : nat) : bytes :=
  match fuel, n with
  | O, _ | _, O => s
  | S fuel', S n' =>
      if has_prefix old s
      then new ++ Replace_fuel fuel' (drop (length old) s) old new n'
      else match s with
           | [] => []
           | c :: t => c :: Replace_fuel fuel' t old new n
           end
  end.

(** [strings.Replace(s, old, new, n)] for a non-empty [old] and [n >= 0]:
    the first [n] non-overlapping occurrences of [old], scanning from the
    left, are replaced by [new].  Both call sites pass a non-empty [old]. *)
Definition strings_Replace (s old new : bytes) (n : nat) : bytes :=
  Replace_fuel (S (length s)) s old new n.

(* ===================================================================== *)
(** * JSON repair *)
(* ===================================================================== *)

Import regexp.

(** The pattern of the source has three capture groups in sequence: an
    opening quotation character followed by a bracket or a brace; a greedy
    run (dot, star) of characters other than newline; a closing bracket or
    brace followed by a quotation character. *)
Definition invalidZbJSONRegex : Regexp :=
  Concat
    (Capture (Alternate (Concat (Literal quote) (Literal lbrack))
                        (Concat (Literal quote) (Literal lbrace))))
    (Concat
       (Capture (Star AnyCharNotNL))
       (Capture (Alternate (Concat (Literal rbrack) (Literal quote))
                           (Concat (Literal rbrace) (Literal quote))))).

Definition wsFixInvalidJSON (json : bytes) : bytes :=
  let regexChecker := invalidZbJSONRegex in
  match Find regexChecker json with
  | None => json
  | Some matchingResults =>
      (* Remove first quote character *)
      let capturedInvalidZBJSON := strings_Replace matchingResults [quote] [] 1 in
      (* Remove last quote character *)
      let fixedJSON :=
        take (length capturedInvalidZBJSON - 1) capturedInvalidZBJSON in
      strings_Replace json matchingResults fixedJSON 1
  end.

(** A frame shows the quote-wrapping defect when some span of it matches
    the pattern. *)
Definition DefectOccurs (json : bytes) : Prop :=
  exists pre m post,
    json = pre ++ m ++ post /\ Matches invalidZbJSONRegex m.

(* ===================================================================== *)
(** * Go values *)
(* ===================================================================== *)

(** [int64] with its wrap-around. *)
Definition wrap64 (z : Z) : Z := (z + 2 ^ 63) mod 2 ^ 64 - 2 ^ 63.
Definition int64_mul (a b : Z) : Z := wrap64 (a * b).

Abbreviation float64 := PrimFloat.float.

(** What encoding/json stores in an [interface{}]. *)
#[warnings="-register-all"]
Inductive iface : Type :=
| Inil
| Ibool (b : bool)
| Ifloat64 (f : float64)
| Istring (s : string)
| Islice (l : list iface)
| Imap (m : list (string * iface)).

(** Run-time panics of the statements the reader loop executes. *)
Inductive panic : Type :=
| IndexOutOfRange (index len : nat)
| InterfaceConversion (dynamic : iface).   (* x.(float64) on another type *)

(** An error made by a collaborator (encoding/json, the connection, the
    orderbook buffer): this file only passes it on. *)
Record foreign_error : Type := { origin : string; text : string }.

(** Go errors, by where they are made: the ones that come back from a
    collaborator, and the ones this file builds. *)
Inductive error : Type :=
| Foreign (err : foreign_error)
| RequestFailed (name message code_text : string)
    (* fmt.Errorf of "%v request failed, message: %v, error code: %v" *)
| AuthenticatedWebsocketAPISupportNotEnabled (name : string)
    (* fmt.Errorf of "%v AuthenticatedWebsocketAPISupport not enabled" *)
| UnhandledWebsocketResponse.
    (* errors.New of "zb_websocket.go error - unhandled websocket response" *)

Coercion Foreign : foreign_error >-> error.

(** The pair (value, error) a collaborator returns. *)
Inductive result (T : Type) : Type :=
| Ok (v : T)
| Err (err : foreign_error).
Arguments Ok {T} v.
Arguments Err {T} err.

Module time.
Record Time : Type := Unix { sec : Z; nsec : Z }.
Definition Millisecond : Z := 1000000.
End time.

Module asset.
Definition Item : Type := string.
Definition Spot : Item := "spot".
End asset.

(* ===================================================================== *)
(** * strings on names *)
(* ===================================================================== *)

Definition lower_ascii (c : ascii) : ascii :=
  let n := N_of_ascii c in
  if ((65 <=? n) && (n <=? 90))%N then ascii_of_N (n + 32) else c.

Fixpoint strings_ToLower (s : string) : string :=
  match s with
  | EmptyString => EmptyString
  | String c t => String (lower_ascii c) (strings_ToLower t)
  end.

(** [strings.Contains(s, substr)]. *)
Fixpoint strings_Contains (s substr : string) : bool :=
  String.prefix substr s
  || match s with
     | EmptyString => false
     | String _ t => strings_Contains t substr
     end.

Fixpoint string_drop (n : nat) (s : string) : string :=
  match n, s with
  | S n', String _ t => string_drop n' t
  | _, _ => s
  end.

Fixpoint Split_fuel (fuel : nat) (cur s sep : string) : list string :=
  match fuel, s with
  | S fuel', String c t =>
      if String.prefix sep s
      then cur :: Split_fuel fuel' EmptyString (string_drop (String.length sep) s) sep
      else Split_fuel fuel' (cur +:+ String c EmptyString) t sep
  | _, _ => [cur +:+ s]
  end.

(** [strings.Split(s, sep)] for a non-empty [sep], the only use here. *)
Definition strings_Split (s sep : string) : list string :=
  Split_fuel (String.length s) EmptyString s sep.

(** [fmt.Sprintf(format, arg)] for a format whose only verb is one [%s]. *)
Fixpoint Sprintf_s (format arg : string) : string :=
  match format with
  | String "%" (String "s" rest) => arg +:+ rest
  | String c rest => String c (Sprintf_s rest arg)
  | EmptyString => EmptyString
  end.

Definition hex_digit (n : N) : ascii :=
  if (n <? 10)%N then ascii_of_N (48 + n) else ascii_of_N (87 + n).

(** [fmt.Sprintf] of the verb [%x] on a byte slice: two lower-case
    hexadecimal digits per byte. *)
Fixpoint Sprintf_x (b : bytes) : string :=
  match b with
  | [] => EmptyString
  | c :: t =>
      let n := Byte.to_N c in
      String (hex_digit (n / 16)) (String (hex_digit (n mod 16)) (Sprintf_x t))
  end.

(* ===================================================================== *)
(** * currency.Pair *)
(* ===================================================================== *)

Module currency.

Record Pair : Type := { Base : string; Quote : string; Delimiter : string }.

#[global] Instance Pair_eq_dec : EqDecision Pair.
Proof. solve_decision. Defined.

(** Modelled from the spec: package currency is not among the sources at
    hand.  The instrument string is the base code, the delimiter and the
    quote code; [Lower] lower-cases both codes and keeps the delimiter. *)
Definition String (p : Pair) : string :=
  Base p +:+ Delimiter p +:+ Quote p.

Definition Lower (p : Pair) : Pair :=
  {| Base := strings_ToLower (Base p);
     Quote := strings_ToLower (Quote p);
     Delimiter := Delimiter p |}.

(** The assignment [p.Delimiter = d]. *)
Definition set_Delimiter (d : string) (p : Pair) : Pair :=
  {| Base := Base p; Quote := Quote p; Delimiter := d |}.

Definition zero : Pair :=
  {| Base := EmptyString; Quote := EmptyString; Delimiter := EmptyString |}.

End currency.

(* ===================================================================== *)
(** * Wire structures *)
(* ===================================================================== *)

(** The declarations of these structures are in the types file of the
    package, which is not among the sources at hand; each is given here
    with the fields [zb_websocket.go] reads or writes, at the types that
    its uses require. *)

Module Generic.
Record t : Type :=
  { Code : Z; Message : string; No : Z; Channel : string; Data : bytes }.
End Generic.

(** The market listing is decoded and then dropped. *)
Module Markets.
Definition t : Type := iface.
End Markets.

Module WsTicker.
Record data : Type :=
  { Last : float64; Volume24Hr : float64; High : float64; Low : float64;
    Buy : float64; Sell : float64 }.
Record t : Type := { Data : data; Date : Z }.
End WsTicker.

(** Each entry of [Asks] and [Bids] is a slice of [interface{}]: the code
    indexes it and asserts [float64] on what it finds. *)
Module WsDepth.
Record t : Type := { Asks : list (list iface); Bids : list (list iface) }.
End WsDepth.

Module WsTrades.
Record data : Type :=
  { Date : Z; Price : float64; Amount : float64; TradeType : string }.
Record t : Type := { Data : list data }.
End WsTrades.

(** The reply structures of the authenticated operations.  The code reads
    [Code] and [Message] and hands the rest back to the caller. *)
Inductive ResponseType : Type :=
| WsGetSubUserListResponse
| WsRequestResponse
| WsSubmitOrderResponse
| WsCancelOrderResponse
| WsGetOrderResponse
| WsGetOrdersResponse
| WsGetOrdersIgnoreTradeTypeResponse
| WsGetAccountInfoResponse.

Module Response.
Record t : Type :=
  { Type_ : ResponseType; Code : Z; Message : string; Rest : iface }.
End Response.

(** The commands.  All carry the fields of [WsAuthenticatedRequest]; the
    body tells the command structures apart. *)
Inductive RequestBody : Type :=
| WsAuthenticatedRequest
| WsAddSubUserRequest (Memo Password SubUserName : string)
| WsDoTransferFundsRequest (Amount : float64) (Currency : string)
    (FromUserName ToUserName : string)
| WsCreateSubUserKeyRequest (AssetPerm EntrustPerm LeverPerm MoneyPerm : bool)
    (KeyName ToUserID : string)
| WsSubmitOrderRequest (Amount Price : float64) (TradeType : Z)
| WsCancelOrderRequest (ID : Z)
| WsGetOrderRequest (ID : Z)
| WsGetOrdersRequest (PageIndex TradeType : Z)
| WsGetOrdersIgnoreTradeTypeRequest (PageIndex PageSize : Z).

Module Request.
Record t : Type :=
  { Body : RequestBody; Channel : string; Event : string;
    Accesskey : string; No : Z; Sign : string }.

Definition set_Sign (sign : string) (r : t) : t :=
  {| Body := Body r; Channel := Channel r; Event := Event r;
     Accesskey := Accesskey r; No := No r; Sign := sign |}.
End Request.

(* ===================================================================== *)
(** * Canonical events *)
(* ===================================================================== *)

Module ticker.
Record Price : Type :=
  { ExchangeName : string; Close : float64; Volume : float64;
    High : float64; Low : float64; Last : float64; Bid : float64;
    Ask : float64; LastUpdated : time.Time; AssetType : asset.Item;
    Pair : currency.Pair }.
End ticker.

Module orderbook.
Record Item : Type := { Amount : float64; Price : float64 }.
Record Base : Type :=
  { Asks : list Item; Bids : list Item; AssetType : asset.Item;
    Pair : currency.Pair; ExchangeName : string }.
End orderbook.

Module wshandler.
Record WebsocketOrderbookUpdate : Type :=
  { ou_Pair : currency.Pair; ou_Asset : asset.Item; ou_Exchange : string }.

Record TradeData : Type :=
  { Timestamp : time.Time; CurrencyPair : currency.Pair;
    AssetType : asset.Item; Exchange : string; Price : float64;
    Amount : float64; Side : string }.

Record WebsocketChannelSubscription : Type :=
  { Channel : string; Currency : currency.Pair }.

#[global] Instance WebsocketChannelSubscription_eq_dec :
  EqDecision WebsocketChannelSubscription.
Proof. solve_decision. Defined.
End wshandler.

(** What travels on [DataHandler], a channel of [interface{}]. *)
Inductive DataHandlerValue : Type :=
| DH_error (err : error)
| DH_ticker_Price (p : ticker.Price)
| DH_WebsocketOrderbookUpdate (u : wshandler.WebsocketOrderbookUpdate)
| DH_TradeData (t : wshandler.TradeData).

(** What the reader loop does to the outside, in the order it does it. *)
Inductive Event : Type :=
| Wg_Add
| Wg_Done
| ReadMessageErrors_send (err : error)
| TrafficAlert_send
| DataHandler_send (v : DataHandlerValue)
| AddResponseWithID_call (id : Z) (data : bytes).

(* ===================================================================== *)
(** * Collaborators *)
(* ===================================================================== *)

Inductive HashType : Type := HashMD5.

(** Everything [zb_websocket.go] calls outside of itself and of the
    operations modelled above: encoding/json at each structure it decodes
    into, the crypto helpers, the error-code table and the pair parser of
    the package, the orderbook buffer and the connection of the websocket
    handler.  The definitions below hold for every collaborator. *)
Class Collaborators : Type :=
  { json_Unmarshal_Generic : bytes -> result Generic.t;
    json_Unmarshal_Markets : bytes -> result Markets.t;
    json_Unmarshal_WsTicker : bytes -> result WsTicker.t;
    json_Unmarshal_WsDepth : bytes -> result WsDepth.t;
    json_Unmarshal_WsTrades : bytes -> result WsTrades.t;
    json_Unmarshal_Response : ResponseType -> bytes -> result Response.t;
    json_Marshal : Request.t -> result bytes;
    crypto_GetHMAC : HashType -> bytes -> bytes -> bytes;
    crypto_Sha1ToHex : string -> string;
    wsErrCodes : gmap Z string;
    currency_NewPairFromString : string -> currency.Pair;
    Orderbook : Type;
    Orderbook_LoadSnapshot :
      Orderbook -> orderbook.Base -> Orderbook * option foreign_error;
    Conn : Type;
    GenerateMessageID : Conn -> bool -> Z * Conn;
    SendMessageReturnResponse :
      Conn -> Z -> Request.t -> result bytes * Conn }.

(** The receiver, with the configuration the methods read from it. *)
Record ZB : Type :=
  { Name : string;
    AuthenticatedSupport : bool;
    AuthenticatedWebsocketSupport : bool;
    API_Credentials_Key : string;
    API_Credentials_Secret : string;
    EnabledPairs_Spot : list currency.Pair }.

Inductive AuthEndpoint : Type := RestAuthentication | WebsocketAuthentication.

Definition GetAuthenticatedAPISupport (z : ZB) (endpoint : AuthEndpoint) : bool :=
  match endpoint with
  | RestAuthentication => AuthenticatedSupport z
  | WebsocketAuthentication => AuthenticatedWebsocketSupport z
  end.

Definition GetEnabledPairs (z : ZB) (a : asset.Item) : list currency.Pair :=
  if decide (a = asset.Spot) then EnabledPairs_Spot z else [].

Definition zWebsocketAddChannel : string := "addChannel".

(* ===================================================================== *)
(** * Statements with state and early exit *)
(* ===================================================================== *)

(** A block of statements over a state [S] either runs to its end with a
    value or leaves early with an [E]: [continue], [return] or a panic. *)
Definition M (S E A : Type) : Type := S -> (A + E) * S.

#[global] Instance M_ret {S E} : MRet (M S E) :=
  fun A a s => (inl a, s).

#[global] Instance M_bind {S E} : MBind (M S E) :=
  fun A B f m s =>
    match m s with
    | (inl a, s') => f a s'
    | (inr e, s') => (inr e, s')
    end.

Definition leave {S E A} (e : E) : M S E A := fun s => (inr e, s).

Definition modify {S E} (f : S -> S) : M S E unit := fun s => (inl tt, f s).

(** [if cond { block }] where the block ends in an early exit or not. *)
Definition when {S E} (cond : bool) (block : M S E unit) : M S E unit :=
  if cond then block else mret tt.

(** [v, err := call; if err != nil { handler }]. *)
Definition or_else {S E T} (r : result T)
    (handler : foreign_error -> M S E T) : M S E T :=
  match r with
  | Ok v => mret v
  | Err err => handler err
  end.

(* ===================================================================== *)
(** * The reader loop *)
(* ===================================================================== *)

(** What one iteration of the loop meets: the shutdown channel is ready,
    or [ReadMessage] fails, or it delivers a frame ([resp.Raw]). *)
Inductive Incoming : Type :=
| ShutdownC_closed
| ReadMessage_error (err : foreign_error)
| ReadMessage_frame (raw : bytes).

(** How a frame's statements end before the end of the loop body. *)
Inductive Exit : Type :=
| Continue
| Panic (p : panic).

(** Where the goroutine is once the given input is used up. *)
Inductive Status : Type :=
| Reading                 (* blocked in ReadMessage, the loop goes on *)
| Returned
| Panicked (p : panic).

Section ReaderLoop.
Context `{Collaborators}.

Record LoopState : Type := { book : Orderbook; sent : list Event }.

Definition send {E} (e : Event) : M LoopState E unit :=
  modify (fun st => {| book := book st; sent := sent st ++ [e] |}).

Definition DataHandler {E} (v : DataHandlerValue) : M LoopState E unit :=
  send (DataHandler_send v).

(** [l[i]] with its bounds check. *)
Definition index {A} (l : list A) (i : nat) : M LoopState Exit A :=
  match l !! i with
  | Some x => mret x
  | None => leave (Panic (IndexOutOfRange i (length l)))
  end.

(** The type assertion [v.(float64)]. *)
Definition assert_float64 (v : iface) : M LoopState Exit float64 :=
  match v with
  | Ifloat64 f => mret f
  | _ => leave (Panic (InterfaceConversion v))
  end.

(** [for i := range entries { items = append(items, orderbook.Item{
    Amount: entries[i][1].(float64), Price: entries[i][0].(float64)}) }] *)
Fixpoint append_items (entries : list (list iface)) (items : list orderbook.Item)
  : M LoopState Exit (list orderbook.Item) :=
  match entries with
  | [] => mret items
  | entry :: rest =>
      a ← index entry 1;
      amount ← assert_float64 a;
      p ← index entry 0;
      price ← assert_float64 p;
      append_items rest
        (items ++ [{| orderbook.Amount := amount; orderbook.Price := price |}])
  end.

Definition LoadSnapshot (newOrderBook : orderbook.Base)
  : M LoopState Exit (option foreign_error) :=
  fun st =>
    let '(book', err) := Orderbook_LoadSnapshot (book st) newOrderBook in
    (inl err, {| book := book'; sent := sent st |}).

(** The code test shared by the reader loop and the reply handling. *)
Definition request_failed (code : Z) : bool :=
  bool_decide (code > 0) && bool_decide (code <> 1000).

Definition errorf_request_failed (z : ZB) (message : string) (code : Z) : error :=
  RequestFailed (Name z) message (default EmptyString (wsErrCodes !! code)).

(** The statements of the [default] branch of the [select], after a
    successful [ReadMessage]. *)
Definition handle_frame (z : ZB) (raw : bytes) : M LoopState Exit unit :=
  send TrafficAlert_send;;
  let fixedJSON := wsFixInvalidJSON raw in
  result ← or_else (json_Unmarshal_Generic fixedJSON)
             (fun err => DataHandler (DH_error (Foreign err));; leave Continue);
  when (bool_decide (Generic.No result > 0))
    (send (AddResponseWithID_call (Generic.No result) fixedJSON);;
     leave Continue);;
  when (request_failed (Generic.Code result))
    (DataHandler (DH_error (errorf_request_failed z (Generic.Message result)
                              (Generic.Code result)));;
     leave Continue);;
  if strings_Contains (Generic.Channel result) "markets" then
    _ ← or_else (json_Unmarshal_Markets (Generic.Data result))
          (fun err => DataHandler (DH_error (Foreign err));; leave Continue);
    mret tt
  else if strings_Contains (Generic.Channel result) "ticker" then
    let cPair := strings_Split (Generic.Channel result) "_" in
    wsTicker ← or_else (json_Unmarshal_WsTicker fixedJSON)
                 (fun err => DataHandler (DH_error (Foreign err));; leave Continue);
    cPair0 ← index cPair 0;
    DataHandler (DH_ticker_Price
      {| ticker.ExchangeName := Name z;
         ticker.Close := WsTicker.Last (WsTicker.Data wsTicker);
         ticker.Volume := WsTicker.Volume24Hr (WsTicker.Data wsTicker);
         ticker.High := WsTicker.High (WsTicker.Data wsTicker);
         ticker.Low := WsTicker.Low (WsTicker.Data wsTicker);
         ticker.Last := WsTicker.Last (WsTicker.Data wsTicker);
         ticker.Bid := WsTicker.Buy (WsTicker.Data wsTicker);
         ticker.Ask := WsTicker.Sell (WsTicker.Data wsTicker);
         ticker.LastUpdated :=
           time.Unix 0 (int64_mul (WsTicker.Date wsTicker) time.Millisecond);
         ticker.AssetType := asset.Spot;
         ticker.Pair := currency_NewPairFromString cPair0 |})
  else if strings_Contains (Generic.Channel result) "depth" then
    depth ← or_else (json_Unmarshal_WsDepth fixedJSON)
              (fun err => DataHandler (DH_error (Foreign err));; leave Continue);
    asks ← append_items (WsDepth.Asks depth) [];
    bids ← append_items (WsDepth.Bids depth) [];
    let channelInfo := strings_Split (Generic.Channel result) "_" in
    channelInfo0 ← index channelInfo 0;
    let cPair := currency_NewPairFromString channelInfo0 in
    let newOrderBook :=
      {| orderbook.Asks := asks; orderbook.Bids := bids;
         orderbook.AssetType := asset.Spot; orderbook.Pair := cPair;
         orderbook.ExchangeName := Name z |} in
    err ← LoadSnapshot newOrderBook;
    match err with
    | Some err => DataHandler (DH_error (Foreign err));; leave Continue
    | None =>
        DataHandler (DH_WebsocketOrderbookUpdate
          {| wshandler.ou_Pair := cPair; wshandler.ou_Asset := asset.Spot;
             wshandler.ou_Exchange := Name z |})
    end
  else if strings_Contains (Generic.Channel result) "trades" then
    trades ← or_else (json_Unmarshal_WsTrades fixedJSON)
               (fun err => DataHandler (DH_error (Foreign err));; leave Continue);
    (* Most up to date trade *)
    when (bool_decide (length (WsTrades.Data trades) = 0%nat)) (leave Continue);;
    t ← index (WsTrades.Data trades) (length (WsTrades.Data trades) - 1);
    let channelInfo := strings_Split (Generic.Channel result) "_" in
    channelInfo0 ← index channelInfo 0;
    let cPair := currency_NewPairFromString channelInfo0 in
    DataHandler (DH_TradeData
      {| wshandler.Timestamp := time.Unix (WsTrades.Date t) 0;
         wshandler.CurrencyPair := cPair;
         wshandler.AssetType := asset.Spot;
         wshandler.Exchange := Name z;
         wshandler.Price := WsTrades.Price t;
         wshandler.Amount := WsTrades.Amount t;
         wshandler.Side := WsTrades.TradeType t |})
  else
    DataHandler (DH_error UnhandledWebsocketResponse);;
    leave Continue.

(** The [for] statement on the iterations the input provides. *)
Fixpoint WsHandleData_loop (z : ZB) (incoming : list Incoming) (st : LoopState)
  : Status * LoopState :=
  match incoming with
  | [] => (Reading, st)
  | ShutdownC_closed :: _ => (Returned, st)
  | ReadMessage_error err :: _ =>
      (Returned, snd (send (E:=Exit) (ReadMessageErrors_send err) st))
  | ReadMessage_frame raw :: rest =>
      match handle_frame z raw st with
      | (inr (Panic p), st') => (Panicked p, st')
      | (_, st') => WsHandleData_loop z rest st'
      end
  end.

(** [WsHandleData]: the wait group is incremented, the loop runs, and the
    deferred [Done] runs when the function is left. *)
Definition WsHandleData (z : ZB) (incoming : list Incoming) (st : LoopState)
  : Status * LoopState :=
  let st := snd (send (E:=Exit) Wg_Add st) in
  match WsHandleData_loop z incoming st with
  | (Reading, st') => (Reading, st')
  | (status, st') => (status, snd (send (E:=Exit) Wg_Done st'))
  end.

(** The state after some more events. *)
Definition emit (st : LoopState) (events : list Event) : LoopState :=
  {| book := book st; sent := sent st ++ events |}.

(** The channel label selects none of the branches of the [switch]. *)
Definition unhandled_channel (channel : string) : Prop :=
  strings_Contains channel "markets" = false
  /\ strings_Contains channel "ticker" = false
  /\ strings_Contains channel "depth" = false
  /\ strings_Contains channel "trades" = false.

(** The channel label selects the trades branch: the branches are tried
    in the order markets, ticker, depth, trades. *)
Definition trades_channel (channel : string) : Prop :=
  strings_Contains channel "markets" = false
  /\ strings_Contains channel "ticker" = false
  /\ strings_Contains channel "depth" = false
  /\ strings_Contains channel "trades" = true.

Definition depth_channel (channel : string) : Prop :=
  strings_Contains channel "markets" = false
  /\ strings_Contains channel "ticker" = false
  /\ strings_Contains channel "depth" = true.

(** The errors that concern one frame only, with the error each one puts
    on the event stream: the frame does not parse after repair; it is not
    a correlated reply and its code is a failure; it is not a correlated
    reply, its code is no failure and no branch takes its channel. *)
Inductive frame_local_error (z : ZB) (raw : bytes) : error -> Prop :=
| Unparseable err :
    json_Unmarshal_Generic (wsFixInvalidJSON raw) = Err err ->
    frame_local_error z raw (Foreign err)
| ProtocolError result :
    json_Unmarshal_Generic (wsFixInvalidJSON raw) = Ok result ->
    Generic.No result <= 0 ->
    Generic.Code result > 0 -> Generic.Code result <> 1000 ->
    frame_local_error z raw
      (errorf_request_failed z (Generic.Message result) (Generic.Code result))
| UnhandledChannel result :
    json_Unmarshal_Generic (wsFixInvalidJSON raw) = Ok result ->
    Generic.No result <= 0 ->
    Generic.Code result <= 0 \/ Generic.Code result = 1000 ->
    unhandled_channel (Generic.Channel result) ->
    frame_local_error z raw UnhandledWebsocketResponse.

(** What the frames of a run put on the event stream when each of them
    has an error of its own. *)
Definition reported (errs : list error) : list Event :=
  errs ≫= fun err => [TrafficAlert_send; DataHandler_send (DH_error err)].

End ReaderLoop.

(* ===================================================================== *)
(** * Default subscriptions *)
(* ===================================================================== *)

(** Modelled from the spec: [SubscribeToChannels] belongs to the websocket
    handler, which is not among the sources at hand.  The subscription
    manager keeps no two subscriptions with the same (channel, instrument)
    pair: each of the given channels is added to the ones to subscribe
    unless it is there already. *)
Definition SubscribeToChannels
    (channelsToSubscribe channels : list wshandler.WebsocketChannelSubscription)
  : list wshandler.WebsocketChannelSubscription :=
  foldl (fun acc c => if decide (c ∈ acc) then acc else acc ++ [c])
        channelsToSubscribe channels.

(** The body of the inner loop, at index [j]. *)
Definition range_enabledCurrencies (format : string)
    (st : list currency.Pair * list wshandler.WebsocketChannelSubscription)
    (j : nat)
  : list currency.Pair * list wshandler.WebsocketChannelSubscription :=
  let '(enabledCurrencies, subscriptions) := st in
  let enabledCurrencies :=
    alter (currency.set_Delimiter EmptyString) j enabledCurrencies in
  match enabledCurrencies !! j with
  | Some p =>
      (enabledCurrencies,
       subscriptions ++
         [{| wshandler.Channel :=
               Sprintf_s format (currency.String (currency.Lower p));
             wshandler.Currency := currency.Lower p |}])
  | None => (enabledCurrencies, subscriptions)
  end.

(** The slice [subscriptions] when the loops of
    [GenerateDefaultSubscriptions] are done. *)
Definition default_subscriptions (z : ZB)
  : list wshandler.WebsocketChannelSubscription :=
  let subscriptions :=
    [{| wshandler.Channel := "markets"; wshandler.Currency := currency.zero |}] in
  let channels := ["%s_ticker"; "%s_depth"; "%s_trades"]%string in
  let enabledCurrencies := GetEnabledPairs z asset.Spot in
  snd (foldl (fun st format =>
                foldl (range_enabledCurrencies format) st
                      (seq 0 (length (fst st))))
             (enabledCurrencies, subscriptions) channels).

(** [GenerateDefaultSubscriptions], on the channels the websocket already
    has to subscribe. *)
Definition GenerateDefaultSubscriptions (z : ZB)
    (channelsToSubscribe : list wshandler.WebsocketChannelSubscription)
  : list wshandler.WebsocketChannelSubscription :=
  SubscribeToChannels channelsToSubscribe (default_subscriptions z).

(** The subscription set in the words of the specification: the
    normalized instrument is lower-cased and has no delimiter, and each
    topic gives one channel, named after the instrument string. *)
Definition normalized (p : currency.Pair) : currency.Pair :=
  currency.Lower (currency.set_Delimiter EmptyString p).

Definition markets_subscription : wshandler.WebsocketChannelSubscription :=
  {| wshandler.Channel := "markets"; wshandler.Currency := currency.zero |}.

Definition topic_subscription (topic : string) (n : currency.Pair)
  : wshandler.WebsocketChannelSubscription :=
  {| wshandler.Channel := currency.String n +:+ "_" +:+ topic;
     wshandler.Currency := n |}.

Definition BTC_USD : currency.Pair :=
  {| currency.Base := "BTC"; currency.Quote := "USD";
     currency.Delimiter := "/" |}.

Definition ETH_USD : currency.Pair :=
  {| currency.Base := "ETH"; currency.Quote := "USD";
     currency.Delimiter := "/" |}.

(* ===================================================================== *)
(** * Signing and the authenticated operations *)
(* ===================================================================== *)

(** The calls an authenticated operation makes, in order. *)
Inductive Call : Type :=
| Called_GenerateMessageID (useNanoPrecision : bool) (id : Z)
| Called_wsGenerateSignature (request : Request.t)
| Called_log_Error (err : foreign_error)
| Called_SendMessageReturnResponse (id : Z) (request : Request.t).

(** What an operation returns: the pointer to the reply, nil or not, and
    the error, nil or not. *)
Definition Reply : Type := option Response.t * option error.

Section Authenticated.
Context `{Collaborators}.

Record World : Type := { conn : Conn; calls : list Call }.

Definition called {E} (c : Call) : M World E unit :=
  modify (fun w => {| conn := conn w; calls := calls w ++ [c] |}).

Definition WebsocketConn_GenerateMessageID {E} (useNanoPrecision : bool)
  : M World E Z :=
  fun w =>
    let '(id, conn') := GenerateMessageID (conn w) useNanoPrecision in
    (inl id,
     {| conn := conn';
        calls := calls w ++ [Called_GenerateMessageID useNanoPrecision id] |}).

Definition WebsocketConn_SendMessageReturnResponse {E} (id : Z)
    (request : Request.t) : M World E (result bytes) :=
  fun w =>
    let '(r, conn') := SendMessageReturnResponse (conn w) id request in
    (inl r,
     {| conn := conn';
        calls := calls w ++ [Called_SendMessageReturnResponse id request] |}).

Definition wsGenerateSignature {E} (z : ZB) (request : Request.t)
  : M World E string :=
  called (Called_wsGenerateSignature request);;
  match json_Marshal request with
  | Err err => called (Called_log_Error err);; mret EmptyString
  | Ok jsonResponse =>
      let hmac :=
        crypto_GetHMAC HashMD5 jsonResponse
          (bytes_of (crypto_Sha1ToHex (API_Credentials_Secret z))) in
      mret (Sprintf_x hmac)
  end.

Definition wsAddSubUser (z : ZB) (username password : string) : M World Reply Reply :=
  when (negb (GetAuthenticatedAPISupport z WebsocketAuthentication))
    (leave (None, Some (AuthenticatedWebsocketAPISupportNotEnabled (Name z))));;
  no ← WebsocketConn_GenerateMessageID true;
  let request :=
    {| Request.Body := WsAddSubUserRequest "memo" password username;
       Request.Channel := "addSubUser";
       Request.Event := zWebsocketAddChannel;
       Request.Accesskey := API_Credentials_Key z;
       Request.No := no;
       Request.Sign := EmptyString |} in
  sign ← wsGenerateSignature z request;
  let request := Request.set_Sign sign request in
  resp ← (r ← WebsocketConn_SendMessageReturnResponse (Request.No request) request;
          or_else r (fun err => leave (None, Some (Foreign err))));
  genericResponse ← or_else (json_Unmarshal_Generic resp)
                      (fun err => leave (None, Some (Foreign err)));
  when (request_failed (Generic.Code genericResponse))
    (leave (None, Some (errorf_request_failed z
                          (Generic.Message genericResponse)
                          (Generic.Code genericResponse))));;
  response ← or_else (json_Unmarshal_Response WsGetSubUserListResponse resp)
               (fun err => leave (None, Some (Foreign err)));
  mret (Some response, None).

Definition wsGetSubUserList (z : ZB) : M World Reply Reply :=
  when (negb (GetAuthenticatedAPISupport z WebsocketAuthentication))
    (leave (None, Some (AuthenticatedWebsocketAPISupportNotEnabled (Name z))));;
  no ← WebsocketConn_GenerateMessageID true;
  let request :=
    {| Request.Body := WsAuthenticatedRequest;
       Request.Channel := "getSubUserList";
       Request.Event := zWebsocketAddChannel;
       Request.Accesskey := API_Credentials_Key z;
       Request.No := no;
       Request.Sign := EmptyString |} in
  sign ← wsGenerateSignature z request;
  let request := Request.set_Sign sign request in
  resp ← (r ← WebsocketConn_SendMessageReturnResponse (Request.No request) request;
          or_else r (fun err => leave (None, Some (Foreign err))));
  response ← or_else (json_Unmarshal_Response WsGetSubUserListResponse resp)
               (fun err => leave (None, Some (Foreign err)));
  when (request_failed (Response.Code response))
    (leave (Some response,
            Some (errorf_request_failed z (Response.Message response)
                    (Response.Code response))));;
  mret (Some response, None).

Definition wsDoTransferFunds (z : ZB) (pair : string) (amount : float64)
  (fromUserName toUserName : string) : M World Reply Reply :=
  when (negb (GetAuthenticatedAPISupport z WebsocketAuthentication))
    (leave (None, Some (AuthenticatedWebsocketAPISupportNotEnabled (Name z))));;
  no ← WebsocketConn_GenerateMessageID true;
  let request :=
    {| Request.Body := WsDoTransferFundsRequest amount pair fromUserName toUserName;
       Request.Channel := "doTransferFunds";
       Request.Event := zWebsocketAddChannel;
       Request.Accesskey := API_Credentials_Key z;
       Request.No := no;
       Request.Sign := EmptyString |} in
  sign ← wsGenerateSignature z request;
  let request := Request.set_Sign sign request in
  resp ← (r ← WebsocketConn_SendMessageReturnResponse (Request.No request) request;
          or_else r (fun err => leave (None, Some (Foreign err))));
  response ← or_else (json_Unmarshal_Response WsRequestResponse resp)
               (fun err => leave (None, Some (Foreign err)));
  when (request_failed (Response.Code response))
    (leave (Some response,
            Some (errorf_request_failed z (Response.Message response)
                    (Response.Code response))));;
  mret (Some response, None).

Definition wsCreateSubUserKey (z : ZB) (assetPerm entrustPerm leverPerm moneyPerm : bool)
  (keyName toUserID : string) : M World Reply Reply :=
  when (negb (GetAuthenticatedAPISupport z WebsocketAuthentication))
    (leave (None, Some (AuthenticatedWebsocketAPISupportNotEnabled (Name z))));;
  no ← WebsocketConn_GenerateMessageID true;
  let request :=
    {| Request.Body := WsCreateSubUserKeyRequest assetPerm entrustPerm leverPerm moneyPerm
                      keyName toUserID;
       Request.Channel := "createSubUserKey";
       Request.Event := zWebsocketAddChannel;
       Request.Accesskey := API_Credentials_Key z;
       Request.No := no;
       Request.Sign := EmptyString |} in
  sign ← wsGenerateSignature z request;
  let request := Request.set_Sign sign request in
  resp ← (r ← WebsocketConn_SendMessageReturnResponse (Request.No request) request;
          or_else r (fun err => leave (None, Some (Foreign err))));
  response ← or_else (json_Unmarshal_Response WsRequestResponse resp)
               (fun err => leave (None, Some (Foreign err)));
  when (request_failed (Response.Code response))
    (leave (Some response,
            Some (errorf_request_failed z (Response.Message response)
                    (Response.Code response))));;
  mret (Some response, None).

Definition wsSubmitOrder (z : ZB) (pair : currency.Pair) (amount price : float64)
  (tradeType : Z) : M World Reply Reply :=
  when (negb (GetAuthenticatedAPISupport z WebsocketAuthentication))
    (leave (None, Some (AuthenticatedWebsocketAPISupportNotEnabled (Name z))));;
  no ← WebsocketConn_GenerateMessageID true;
  let request :=
    {| Request.Body := WsSubmitOrderRequest amount price tradeType;
       Request.Channel := currency.String pair +:+ "_order";
       Request.Event := zWebsocketAddChannel;
       Request.Accesskey := API_Credentials_Key z;
       Request.No := no;
       Request.Sign := EmptyString |} in
  sign ← wsGenerateSignature z request;
  let request := Request.set_Sign sign request in
  resp ← (r ← WebsocketConn_SendMessageReturnResponse (Request.No request) request;
          or_else r (fun err => leave (None, Some (Foreign err))));
  response ← or_else (json_Unmarshal_Response WsSubmitOrderResponse resp)
               (fun err => leave (None, Some (Foreign err)));
  when (request_failed (Response.Code response))
    (leave (Some response,
            Some (errorf_request_failed z (Response.Message response)
                    (Response.Code response))));;
  mret (Some response, None).

Definition wsCancelOrder (z : ZB) (pair : currency.Pair) (orderID : Z) : M World Reply Reply :=
  when (negb (GetAuthenticatedAPISupport z WebsocketAuthentication))
    (leave (None, Some (AuthenticatedWebsocketAPISupportNotEnabled (Name z))));;
  no ← WebsocketConn_GenerateMessageID true;
  let request :=
    {| Request.Body := WsCancelOrderRequest orderID;
       Request.Channel := currency.String pair +:+ "_cancelorder";
       Request.Event := zWebsocketAddChannel;
       Request.Accesskey := API_Credentials_Key z;
       Request.No := no;
       Request.Sign := EmptyString |} in
  sign ← wsGenerateSignature z request;
  let request := Request.set_Sign sign request in
  resp ← (r ← WebsocketConn_SendMessageReturnResponse (Request.No request) request;
          or_else r (fun err => leave (None, Some (Foreign err))));
  response ← or_else (json_Unmarshal_Response WsCancelOrderResponse resp)
               (fun err => leave (None, Some (Foreign err)));
  when (request_failed (Response.Code response))
    (leave (Some response,
            Some (errorf_request_failed z (Response.Message response)
                    (Response.Code response))));;
  mret (Some response, None).

Definition wsGetOrder (z : ZB) (pair : currency.Pair) (orderID : Z) : M World Reply Reply :=
  when (negb (GetAuthenticatedAPISupport z WebsocketAuthentication))
    (leave (None, Some (AuthenticatedWebsocketAPISupportNotEnabled (Name z))));;
  no ← WebsocketConn_GenerateMessageID true;
  let request :=
    {| Request.Body := WsGetOrderRequest orderID;
       Request.Channel := currency.String pair +:+ "_getorder";
       Request.Event := zWebsocketAddChannel;
       Request.Accesskey := API_Credentials_Key z;
       Request.No := no;
       Request.Sign := EmptyString |} in
  sign ← wsGenerateSignature z request;
  let request := Request.set_Sign sign request in
  resp ← (r ← WebsocketConn_SendMessageReturnResponse (Request.No request) request;
          or_else r (fun err => leave (None, Some (Foreign err))));
  response ← or_else (json_Unmarshal_Response WsGetOrderResponse resp)
               (fun err => leave (None, Some (Foreign err)));
  when (request_failed (Response.Code response))
    (leave (Some response,
            Some (errorf_request_failed z (Response.Message response)
                    (Response.Code response))));;
  mret (Some response, None).

Definition wsGetOrders (z : ZB) (pair : currency.Pair) (pageIndex tradeType : Z) : M World Reply Reply :=
  when (negb (GetAuthenticatedAPISupport z WebsocketAuthentication))
    (leave (None, Some (AuthenticatedWebsocketAPISupportNotEnabled (Name z))));;
  no ← WebsocketConn_GenerateMessageID true;
  let request :=
    {| Request.Body := WsGetOrdersRequest pageIndex tradeType;
       Request.Channel := currency.String pair +:+ "_getorders";
       Request.Event := zWebsocketAddChannel;
       Request.Accesskey := API_Credentials_Key z;
       Request.No := no;
       Request.Sign := EmptyString |} in
  sign ← wsGenerateSignature z request;
  let request := Request.set_Sign sign request in
  resp ← (r ← WebsocketConn_SendMessageReturnResponse (Request.No request) request;
          or_else r (fun err => leave (None, Some (Foreign err))));
  response ← or_else (json_Unmarshal_Response WsGetOrdersResponse resp)
               (fun err => leave (None, Some (Foreign err)));
  when (request_failed (Response.Code response))
    (leave (Some response,
            Some (errorf_request_failed z (Response.Message response)
                    (Response.Code response))));;
  mret (Some response, None).

Definition wsGetOrdersIgnoreTradeType (z : ZB) (pair : currency.Pair)
  (pageIndex pageSize : Z) : M World Reply Reply :=
  when (negb (GetAuthenticatedAPISupport z WebsocketAuthentication))
    (leave (None, Some (AuthenticatedWebsocketAPISupportNotEnabled (Name z))));;
  no ← WebsocketConn_GenerateMessageID true;
  let request :=
    {| Request.Body := WsGetOrdersIgnoreTradeTypeRequest pageIndex pageSize;
       Request.Channel := currency.String pair +:+ "_getordersignoretradetype";
       Request.Event := zWebsocketAddChannel;
       Request.Accesskey := API_Credentials_Key z;
       Request.No := no;
       Request.Sign := EmptyString |} in
  sign ← wsGenerateSignature z request;
  let request := Request.set_Sign sign request in
  resp ← (r ← WebsocketConn_SendMessageReturnResponse (Request.No request) request;
          or_else r (fun err => leave (None, Some (Foreign err))));
  response ← or_else (json_Unmarshal_Response WsGetOrdersIgnoreTradeTypeResponse resp)
               (fun err => leave (None, Some (Foreign err)));
  when (request_failed (Response.Code response))
    (leave (Some response,
            Some (errorf_request_failed z (Response.Message response)
                    (Response.Code response))));;
  mret (Some response, None).

Definition wsGetAccountInfoRequest (z : ZB) : M World Reply Reply :=
  when (negb (GetAuthenticatedAPISupport z WebsocketAuthentication))
    (leave (None, Some (AuthenticatedWebsocketAPISupportNotEnabled (Name z))));;
  no ← WebsocketConn_GenerateMessageID true;
  let request :=
    {| Request.Body := WsAuthenticatedRequest;
       Request.Channel := "getaccountinfo";
       Request.Event := zWebsocketAddChannel;
       Request.Accesskey := API_Credentials_Key z;
       Request.No := no;
       Request.Sign := EmptyString |} in
  sign ← wsGenerateSignature z request;
  let request := Request.set_Sign sign request in
  resp ← (r ← WebsocketConn_SendMessageReturnResponse (Request.No request) request;
          or_else r (fun err => leave (None, Some (Foreign err))));
  response ← or_else (json_Unmarshal_Response WsGetAccountInfoResponse resp)
               (fun err => leave (None, Some (Foreign err)));
  when (request_failed (Response.Code response))
    (leave (Some response,
            Some (errorf_request_failed z (Response.Message response)
                    (Response.Code response))));;
  mret (Some response, None).

(** The authenticated operations with their arguments, to speak of all of
    them at once. *)
Inductive Operation : Type :=
| AddSubUser (username password : string)
| GetSubUserList
| DoTransferFunds (pair : string) (amount : float64)
    (fromUserName toUserName : string)
| CreateSubUserKey (assetPerm entrustPerm leverPerm moneyPerm : bool)
    (keyName toUserID : string)
| SubmitOrder (pair : currency.Pair) (amount price : float64) (tradeType : Z)
| CancelOrder (pair : currency.Pair) (orderID : Z)
| GetOrder (pair : currency.Pair) (orderID : Z)
| GetOrders (pair : currency.Pair) (pageIndex tradeType : Z)
| GetOrdersIgnoreTradeType (pair : currency.Pair) (pageIndex pageSize : Z)
| GetAccountInfoRequest.

Definition perform (z : ZB) (o : Operation) : M World Reply Reply :=
  match o with
  | AddSubUser username password => wsAddSubUser z username password
  | GetSubUserList => wsGetSubUserList z
  | DoTransferFunds code amount fromUserName toUserName =>
      wsDoTransferFunds z code amount fromUserName toUserName
  | CreateSubUserKey assetPerm entrustPerm leverPerm moneyPerm keyName toUserID =>
      wsCreateSubUserKey z assetPerm entrustPerm leverPerm moneyPerm
        keyName toUserID
  | SubmitOrder p amount price tradeType =>
      wsSubmitOrder z p amount price tradeType
  | CancelOrder p orderID => wsCancelOrder z p orderID
  | GetOrder p orderID => wsGetOrder z p orderID
  | GetOrders p pageIndex tradeType => wsGetOrders z p pageIndex tradeType
  | GetOrdersIgnoreTradeType p pageIndex pageSize =>
      wsGetOrdersIgnoreTradeType z p pageIndex pageSize
  | GetAccountInfoRequest => wsGetAccountInfoRequest z
  end.

(** The structure each operation decodes its reply into before it tests
    the code, and what it reads there: code and message. *)
Definition reply_envelope (o : Operation) (resp : bytes) : result (Z * string) :=
  let of_response ty :=
    match json_Unmarshal_Response ty resp with
    | Ok r => Ok (Response.Code r, Response.Message r)
    | Err err => Err err
    end in
  match o with
  | AddSubUser _ _ =>
      match json_Unmarshal_Generic resp with
      | Ok g => Ok (Generic.Code g, Generic.Message g)
      | Err err => Err err
      end
  | GetSubUserList => of_response WsGetSubUserListResponse
  | DoTransferFunds _ _ _ _ => of_response WsRequestResponse
  | CreateSubUserKey _ _ _ _ _ _ => of_response WsRequestResponse
  | SubmitOrder _ _ _ _ => of_response WsSubmitOrderResponse
  | CancelOrder _ _ => of_response WsCancelOrderResponse
  | GetOrder _ _ => of_response WsGetOrderResponse
  | GetOrders _ _ _ => of_response WsGetOrdersResponse
  | GetOrdersIgnoreTradeType _ _ _ => of_response WsGetOrdersIgnoreTradeTypeResponse
  | GetAccountInfoRequest => of_response WsGetAccountInfoResponse
  end.

(** A call of a method: what it returns, however it is left. *)
Definition run {S R} (m : M S R R) (s : S) : R * S :=
  match m s with
  | (inl r, s') => (r, s')
  | (inr r, s') => (r, s')
  end.

End Authenticated.

(* ===================================================================== *)
(** * Test doubles *)
(* ===================================================================== *)

(** Stand-ins for the collaborators, in the manner of the mocks of a unit
    test: a decoder that knows a handful of frames, a connection that
    numbers its requests and plays back scripted replies, an orderbook
    buffer that keeps what it is given.  They serve to run the definitions
    on concrete input; no theorem about the adapter is specific to them. *)
Module Fixtures.

(** Frames are written with apostrophes where the wire has quotation
    characters. *)
Definition json_text (s : string) : bytes :=
  (fun b => if decide (b = x27) then quote else b) <$> bytes_of s.

Fixpoint lookup_frame {T} (table : list (bytes * T)) (b : bytes) : result T :=
  match table with
  | [] => Err {| origin := "json"; text := "invalid character" |}
  | (k, v) :: rest => if decide (k = b) then Ok v else lookup_frame rest b
  end.

Definition frame_quoted_array : bytes :=
  json_text "{'channel':'btcusdt_depth','data':'[1,2]'}".
Definition frame_plain : bytes := json_text "{'channel':'markets'}".
Definition frame_garbage : bytes := bytes_of "pong".
Definition frame_reply_failed : bytes :=
  json_text "{'no':7,'code':1001,'message':'failure','channel':'getaccountinfo'}".
Definition frame_code_failed : bytes :=
  json_text "{'code':1001,'message':'failure','channel':'btcusdt_trades'}".
Definition frame_unhandled : bytes := json_text "{'channel':'pong'}".
Definition frame_markets : bytes :=
  json_text "{'code':1000,'channel':'markets','data':{}}".
Definition frame_trades3 : bytes :=
  json_text ("{'channel':'btcusdt_trades','data':["
    +:+ "{'date':1,'price':7000.5,'amount':0.125,'trade_type':'bid'},"
    +:+ "{'date':2,'price':7001,'amount':0.25,'trade_type':'ask'},"
    +:+ "{'date':3,'price':6999.5,'amount':2,'trade_type':'bid'}]}").
Definition frame_depth_strings : bytes :=
  json_text "{'channel':'btcusdt_depth','asks':[['7001.5','0.2']],'bids':[]}".
Definition reply_ok : bytes := json_text "{'code':1000,'message':'ok','no':1}".
Definition reply_failed : bytes :=
  json_text "{'code':1001,'message':'failure','no':1}".

Definition generic (code no : Z) (message channel : string) (data : bytes)
  : Generic.t :=
  {| Generic.Code := code; Generic.Message := message; Generic.No := no;
     Generic.Channel := channel; Generic.Data := data |}.

Definition trade (date : Z) (price amount : float64) (side : string)
  : WsTrades.data :=
  {| WsTrades.Date := date; WsTrades.Price := price;
     WsTrades.Amount := amount; WsTrades.TradeType := side |}.

Definition trade1 : WsTrades.data := trade 1 7000.5%float 0.125%float "bid".
Definition trade2 : WsTrades.data := trade 2 7001%float 0.25%float "ask".
Definition trade3 : WsTrades.data := trade 3 6999.5%float 2%float "bid".

Definition generics : list (bytes * Generic.t) :=
  [ (frame_reply_failed, generic 1001 7 "failure" "getaccountinfo" []);
    (frame_code_failed, generic 1001 0 "failure" "btcusdt_trades" []);
    (frame_unhandled, generic 0 0 EmptyString "pong" []);
    (frame_markets, generic 1000 0 EmptyString "markets" (bytes_of "{}"));
    (frame_trades3, generic 0 0 EmptyString "btcusdt_trades" []);
    (frame_depth_strings, generic 0 0 EmptyString "btcusdt_depth" []);
    (reply_ok, generic 1000 1 "ok" EmptyString []);
    (reply_failed, generic 1001 1 "failure" EmptyString []) ].

Definition depths : list (bytes * WsDepth.t) :=
  [ (frame_depth_strings,
     {| WsDepth.Asks := [[Istring "7001.5"; Istring "0.2"]];
        WsDepth.Bids := [] |}) ].

Definition response (ty : ResponseType) (b : bytes) : result Response.t :=
  match lookup_frame generics b with
  | Ok g =>
      Ok {| Response.Type_ := ty; Response.Code := Generic.Code g;
            Response.Message := Generic.Message g; Response.Rest := Inil |}
  | Err err => Err err
  end.

Definition marshal (r : Request.t) : result bytes :=
  Ok (bytes_of (Request.Channel r +:+ "," +:+ Request.Event r +:+ ","
                +:+ Request.Accesskey r)).

Definition new_pair (s : string) : currency.Pair :=
  {| currency.Base := s; currency.Quote := EmptyString;
     currency.Delimiter := EmptyString |}.

Record connection : Type :=
  { next_id : Z; replies : list (result bytes) }.

Definition generate_id (c : connection) (_ : bool) : Z * connection :=
  (next_id c, {| next_id := next_id c + 1; replies := replies c |}).

Definition send_and_wait (c : connection) (_ : Z) (_ : Request.t)
  : result bytes * connection :=
  match replies c with
  | [] => (Err {| origin := "websocket"; text := "timeout" |}, c)
  | r :: rest => (r, {| next_id := next_id c; replies := rest |})
  end.

#[global] Instance doubles : Collaborators :=
  {| json_Unmarshal_Generic := lookup_frame generics;
     json_Unmarshal_Markets := fun b => if decide (b = bytes_of "{}")
                                        then Ok (Imap []) else lookup_frame [] b;
     json_Unmarshal_WsTicker := lookup_frame [];
     json_Unmarshal_WsDepth := lookup_frame depths;
     json_Unmarshal_WsTrades :=
       lookup_frame [(frame_trades3, {| WsTrades.Data := [trade1; trade2; trade3] |})];
     json_Unmarshal_Response := response;
     json_Marshal := marshal;
     crypto_GetHMAC := fun _ input key => key ++ input;
     crypto_Sha1ToHex := fun s => s;
     wsErrCodes := {[ 1001 := "general error" ]};
     currency_NewPairFromString := new_pair;
     Orderbook := list orderbook.Base;
     Orderbook_LoadSnapshot := fun book b => (b :: book, None);
     Conn := connection;
     GenerateMessageID := generate_id;
     SendMessageReturnResponse := send_and_wait |}.

Definition instrument (base quote : string) : currency.Pair :=
  {| currency.Base := base; currency.Quote := quote;
     currency.Delimiter := "/" |}.

Definition zb (authenticated : bool) : ZB :=
  {| Name := "ZB";
     AuthenticatedSupport := authenticated;
     AuthenticatedWebsocketSupport := authenticated;
     API_Credentials_Key := "key";
     API_Credentials_Secret := "secret";
     EnabledPairs_Spot := [instrument "BTC" "USD"; instrument "ETH" "USD"] |}.

Definition read_closed : foreign_error :=
  {| origin := "websocket"; text := "connection closed" |}.

Definition idle : LoopState := {| book := []; sent := [] |}.

Definition world (scripted : list (result bytes)) : World :=
  {| conn := {| next_id := 1; replies := scripted |}; calls := [] |}.

End Fixtures.

(* ===================================================================== *)
(** * Connecting *)
(* ===================================================================== *)

(** What [WsConnect] returns when it does not return nil. *)
Inductive connect_error : Type :=
| WebsocketNotEnabled            (* errors.New(wshandler.WebsocketNotEnabled) *)
| DialFailed (err : foreign_error).

(** What [WsConnect] sets off, in order. *)
Inductive ConnectStep : Type :=
| Dial_call
| go_WsHandleData
| GenerateDefaultSubscriptions_call.

(** [WsConnect], given the two switches it reads ([z.Websocket.IsEnabled()]
    and [z.IsEnabled()]), what [Dial] will answer and the channels the
    websocket has to subscribe: the error, the steps taken and the channels
    afterwards. *)
Definition WsConnect (z : ZB) (websocketEnabled exchangeEnabled : bool)
    (dial : option foreign_error)
    (channelsToSubscribe : list wshandler.WebsocketChannelSubscription)
  : option connect_error * list ConnectStep
    * list wshandler.WebsocketChannelSubscription :=
  if negb websocketEnabled || negb exchangeEnabled
  then (Some WebsocketNotEnabled, [], channelsToSubscribe)
  else
    match dial with
    | Some err => (Some (DialFailed err), [Dial_call], channelsToSubscribe)
    | None =>
        (None,
         [Dial_call; go_WsHandleData; GenerateDefaultSubscriptions_call],
         GenerateDefaultSubscriptions z channelsToSubscribe)
    end.

(* ===================================================================== *)
(** * Vocabulary for the properties of the reader loop and the operations *)
(* ===================================================================== *)

(** The events a frame can cause after the traffic alert. *)
Definition frame_event (e : Event) : Prop :=
  match e with
  | DataHandler_send _ | AddResponseWithID_call _ _ => True
  | _ => False
  end.

Definition wait_group_event (e : Event) : Prop :=
  match e with
  | Wg_Add | Wg_Done => True
  | _ => False
  end.

(** An entry of a depth frame that the conversion accepts: price first,
    amount second, both numbers; what follows them is not looked at. *)
Definition well_formed_entry (entry : list iface) : Prop :=
  exists price amount more, entry = Ifloat64 price :: Ifloat64 amount :: more.

Definition item_of_entry (entry : list iface) : option orderbook.Item :=
  match entry with
  | Ifloat64 price :: Ifloat64 amount :: _ =>
      Some {| orderbook.Amount := amount; orderbook.Price := price |}
  | _ => None
  end.

Definition items_of_entries (entries : list (list iface))
  : list orderbook.Item :=
  omap item_of_entry entries.

(** The panic an entry that the conversion does not accept leads to: the
    amount, at index 1, is fetched and asserted before the price. *)
Definition entry_panic (entry : list iface) : option panic :=
  match entry with
  | [] => Some (IndexOutOfRange 1 0)
  | [_] => Some (IndexOutOfRange 1 1)
  | price :: amount :: _ =>
      match amount, price with
      | Ifloat64 _, Ifloat64 _ => None
      | Ifloat64 _, _ => Some (InterfaceConversion price)
      | _, _ => Some (InterfaceConversion amount)
      end
  end.

Definition ticker_channel (channel : string) : Prop :=
  strings_Contains channel "markets" = false
  /\ strings_Contains channel "ticker" = true.

(** The command an operation builds before it signs it, for the message
    identifier [no] it drew. *)
Definition unsigned_request (z : ZB) (o : Operation) (no : Z) : Request.t :=
  let request body channel :=
    {| Request.Body := body; Request.Channel := channel;
       Request.Event := zWebsocketAddChannel;
       Request.Accesskey := API_Credentials_Key z;
       Request.No := no; Request.Sign := EmptyString |} in
  match o with
  | AddSubUser username password =>
      request (WsAddSubUserRequest "memo" password username) "addSubUser"
  | GetSubUserList => request WsAuthenticatedRequest "getSubUserList"
  | DoTransferFunds code amount fromUserName toUserName =>
      request (WsDoTransferFundsRequest amount code fromUserName toUserName)
              "doTransferFunds"
  | CreateSubUserKey assetPerm entrustPerm leverPerm moneyPerm keyName toUserID =>
      request (WsCreateSubUserKeyRequest assetPerm entrustPerm leverPerm
                 moneyPerm keyName toUserID) "createSubUserKey"
  | SubmitOrder p amount price tradeType =>
      request (WsSubmitOrderRequest amount price tradeType)
              (currency.String p +:+ "_order")
  | CancelOrder p orderID =>
      request (WsCancelOrderRequest orderID) (currency.String p +:+ "_cancelorder")
  | GetOrder p orderID =>
      request (WsGetOrderRequest orderID) (currency.String p +:+ "_getorder")
  | GetOrders p pageIndex tradeType =>
      request (WsGetOrdersRequest pageIndex tradeType)
              (currency.String p +:+ "_getorders")
  | GetOrdersIgnoreTradeType p pageIndex pageSize =>
      request (WsGetOrdersIgnoreTradeTypeRequest pageIndex pageSize)
              (currency.String p +:+ "_getordersignoretradetype")
  | GetAccountInfoRequest => request WsAuthenticatedRequest "getaccountinfo"
  end.

(** The digest [wsGenerateSignature] returns, as a value. *)
Definition signature `{Collaborators} (z : ZB) (request : Request.t) : string :=
  match json_Marshal request with
  | Err _ => EmptyString
  | Ok jsonResponse =>
      Sprintf_x (crypto_GetHMAC HashMD5 jsonResponse
                   (bytes_of (crypto_Sha1ToHex (API_Credentials_Secret z))))
  end.

Definition is_hex_digit (c : ascii) : Prop :=
  let n := N_of_ascii c in
  ((48 <= n /\ n <= 57) \/ (97 <= n /\ n <= 102))%N.

Fixpoint string_Forall (P : ascii -> Prop) (s : string) : Prop :=
  match s with
  | EmptyString => True
  | String c t => P c /\ string_Forall P t
  end.

(** More stand-ins, for frames of the ticker and depth branches. *)
Module Fixtures2.

Definition frame_ticker : bytes :=
  Fixtures.json_text
    ("{'channel':'btcusdt_ticker','date':'1569839160000','ticker':"
     +:+ "{'high':8500,'low':8000,'buy':8250.5,'sell':8251,'last':8250.75,'vol':120.5}}").
Definition frame_depth : bytes :=
  Fixtures.json_text
    "{'channel':'btcusdt_depth','asks':[[8251,0.5],[8252,1.5]],'bids':[[8250,2]]}".
Definition frame_depth_short : bytes :=
  Fixtures.json_text "{'channel':'btcusdt_depth','asks':[[8251]],'bids':[]}".
Definition frame_trades_empty : bytes :=
  Fixtures.json_text "{'channel':'btcusdt_trades','data':[]}".
Definition frame_markets_ticker : bytes :=
  Fixtures.json_text "{'channel':'markets_ticker','data':{}}".

Definition frame_two_arrays : bytes :=
  Fixtures.json_text "{'a':'[1]','b':'[2]'}".
Definition span_two_arrays : bytes := Fixtures.json_text "'[1]','b':'[2]'".

Definition generics : list (bytes * Generic.t) :=
  [ (frame_ticker, Fixtures.generic 0 0 EmptyString "btcusdt_ticker" []);
    (frame_depth, Fixtures.generic 0 0 EmptyString "btcusdt_depth" []);
    (frame_depth_short, Fixtures.generic 0 0 EmptyString "btcusdt_depth" []);
    (frame_trades_empty, Fixtures.generic 0 0 EmptyString "btcusdt_trades" []);
    (frame_markets_ticker,
     Fixtures.generic 0 0 EmptyString "markets_ticker" (bytes_of "{}"));
    (Fixtures.reply_ok, Fixtures.generic 1000 1 "ok" EmptyString []);
    (Fixtures.reply_failed, Fixtures.generic 1001 1 "failure" EmptyString []) ].

Definition ticker_data : WsTicker.t :=
  {| WsTicker.Data :=
       {| WsTicker.Last := 8250.75%float; WsTicker.Volume24Hr := 120.5%float;
          WsTicker.High := 8500%float; WsTicker.Low := 8000%float;
          WsTicker.Buy := 8250.5%float; WsTicker.Sell := 8251%float |};
     WsTicker.Date := 1569839160000 |}.

Definition depth_data : WsDepth.t :=
  {| WsDepth.Asks := [[Ifloat64 8251%float; Ifloat64 0.5%float];
                      [Ifloat64 8252%float; Ifloat64 1.5%float]];
     WsDepth.Bids := [[Ifloat64 8250%float; Ifloat64 2%float]] |}.

Definition depth_short_data : WsDepth.t :=
  {| WsDepth.Asks := [[Ifloat64 8251%float]]; WsDepth.Bids := [] |}.

Definition response (ty : ResponseType) (b : bytes) : result Response.t :=
  match Fixtures.lookup_frame generics b with
  | Ok g =>
      Ok {| Response.Type_ := ty; Response.Code := Generic.Code g;
            Response.Message := Generic.Message g; Response.Rest := Inil |}
  | Err err => Err err
  end.

(** A serializer that refuses the sub-user command and accepts the
    others. *)
Definition marshal (r : Request.t) : result bytes :=
  match Request.Body r with
  | WsAddSubUserRequest _ _ _ =>
      Err {| origin := "json"; text := "unsupported value" |}
  | _ => Fixtures.marshal r
  end.

Definition doubles : Collaborators :=
  {| json_Unmarshal_Generic := Fixtures.lookup_frame generics;
     json_Unmarshal_Markets :=
       fun b => if decide (b = bytes_of "{}")
                then Ok (Imap []) else Fixtures.lookup_frame [] b;
     json_Unmarshal_WsTicker := Fixtures.lookup_frame [(frame_ticker, ticker_data)];
     json_Unmarshal_WsDepth :=
       Fixtures.lookup_frame
         [(frame_depth, depth_data); (frame_depth_short, depth_short_data)];
     json_Unmarshal_WsTrades :=
       Fixtures.lookup_frame [(frame_trades_empty, {| WsTrades.Data := [] |})];
     json_Unmarshal_Response := response;
     json_Marshal := marshal;
     crypto_GetHMAC := fun _ input key => key ++ input;
     crypto_Sha1ToHex := fun s => s;
     wsErrCodes := {[ 1001 := "general error" ]};
     currency_NewPairFromString := Fixtures.new_pair;
     Orderbook := list orderbook.Base;
     Orderbook_LoadSnapshot := fun book b => (b :: book, None);
     Conn := Fixtures.connection;
     GenerateMessageID := Fixtures.generate_id;
     SendMessageReturnResponse := Fixtures.send_and_wait |}.

Definition idle : @LoopState doubles :=
  @Build_LoopState doubles [] [].

Definition world (scripted : list (result bytes)) : @World doubles :=
  @Build_World doubles
    {| Fixtures.next_id := 1; Fixtures.replies := scripted |} [].

End Fixtures2.

(* ===================================================================== *)
(** * Facts about the matcher *)
(* ===================================================================== *)

Module regexp_facts.
Import regexp.

Lemma star_rem_self step fuel s : s ∈ star_rem step fuel s.
Proof.
  destruct fuel; simpl; [apply list_elem_of_singleton; reflexivity|].
  apply elem_of_app; right. apply list_elem_of_singleton; reflexivity.
Qed.

Lemma star_rem_step step fuel s t :
  t ∈ star_rem step (S fuel) s <->
  t = s \/ exists u, u ∈ step s /\ (length u < length s)%nat
                   /\ t ∈ star_rem step fuel u.
Proof.
  simpl. rewrite elem_of_app, list_elem_of_singleton, list_elem_of_bind.
  split.
  - intros [(u & Ht & Hu)| ->]; [right|left; reflexivity].
    exists u. destruct (decide (length u < length s)%nat); [auto|].
    apply elem_of_nil in Ht; contradiction.
  - intros [-> |(u & Hu & Hlt & Ht)]; [right; reflexivity|left].
    exists u. destruct (decide (length u < length s)%nat); [auto|lia].
Qed.

Lemma star_rem_mono step fuel fuel' s t :
  (fuel <= fuel')%nat -> t ∈ star_rem step fuel s -> t ∈ star_rem step fuel' s.
Proof.
  revert fuel' s. induction fuel as [|fuel IH]; intros fuel' s Hle Ht.
  - simpl in Ht. apply list_elem_of_singleton in Ht as ->. apply star_rem_self.
  - destruct fuel' as [|fuel']; [lia|].
    apply star_rem_step in Ht. apply star_rem_step.
    destruct Ht as [-> |(u & Hu & Hlt & Ht)]; [left; reflexivity|right].
    exists u. repeat split; [assumption..|]. apply IH; [lia|assumption].
Qed.

Lemma star_rem_sound r step :
  (forall s t, t ∈ step s -> exists m, s = m ++ t /\ Matches r m) ->
  forall fuel s t, t ∈ star_rem step fuel s ->
    exists m, s = m ++ t /\ Matches (Star r) m.
Proof.
  intros Hstep fuel. induction fuel as [|fuel IH]; intros s t Ht.
  - simpl in Ht. apply list_elem_of_singleton in Ht as ->.
    exists []. split; [reflexivity|constructor].
  - apply star_rem_step in Ht.
    destruct Ht as [-> |(u & Hu & Hlt & Ht)].
    + exists []. split; [reflexivity|constructor].
    + destruct (Hstep _ _ Hu) as (m1 & -> & Hm1).
      destruct (IH _ _ Ht) as (m2 & -> & Hm2).
      exists (m1 ++ m2). split; [apply app_assoc|].
      constructor; [|assumption..].
      intros ->. simpl in Hlt. lia.
Qed.

Lemma remainders_sound r s t :
  t ∈ remainders r s -> exists m, s = m ++ t /\ Matches r m.
Proof.
  revert s t. induction r as [b| |r1 IH1 r2 IH2|r1 IH1 r2 IH2|r IH|r IH];
    intros s t Ht; simpl in Ht.
  - destruct s as [|c s]; [apply elem_of_nil in Ht; contradiction|].
    destruct (decide (c = b)) as [-> |]; [|apply elem_of_nil in Ht; contradiction].
    apply list_elem_of_singleton in Ht as ->.
    exists [b]. split; [reflexivity|constructor].
  - destruct s as [|c s]; [apply elem_of_nil in Ht; contradiction|].
    destruct (decide (c = newline)); [apply elem_of_nil in Ht; contradiction|].
    apply list_elem_of_singleton in Ht as ->.
    exists [c]. split; [reflexivity|constructor; assumption].
  - apply list_elem_of_bind in Ht as (u & Ht & Hu).
    destruct (IH1 _ _ Hu) as (m1 & -> & Hm1).
    destruct (IH2 _ _ Ht) as (m2 & -> & Hm2).
    exists (m1 ++ m2). split; [apply app_assoc|constructor; assumption].
  - apply elem_of_app in Ht as [Ht|Ht].
    + destruct (IH1 _ _ Ht) as (m & -> & Hm).
      exists m. split; [reflexivity|apply MAlternateL; assumption].
    + destruct (IH2 _ _ Ht) as (m & -> & Hm).
      exists m. split; [reflexivity|apply MAlternateR; assumption].
  - eapply star_rem_sound; [apply IH|apply Ht].
  - destruct (IH _ _ Ht) as (m & -> & Hm).
    exists m. split; [reflexivity|constructor; assumption].
Qed.

Lemma remainders_complete r m :
  Matches r m -> forall t, t ∈ remainders r (m ++ t).
Proof.
  induction 1 as [b|c Hc|r1 r2 m1 m2 _ IH1 _ IH2|r1 r2 m _ IH|r1 r2 m _ IH
                 |r|r m1 m2 Hne _ IH1 _ IH2|r m _ IH]; intros t; simpl.
  - rewrite decide_True by reflexivity. apply list_elem_of_singleton; reflexivity.
  - rewrite decide_False by assumption. apply list_elem_of_singleton; reflexivity.
  - apply list_elem_of_bind. exists (m2 ++ t). split; [apply IH2|].
    rewrite <- app_assoc. apply IH1.
  - apply elem_of_app; left; apply IH.
  - apply elem_of_app; right; apply IH.
  - apply star_rem_self.
  - destruct m1 as [|c m1]; [congruence|].
    simpl length. apply star_rem_step. right.
    exists (m2 ++ t). split; [|split].
    + specialize (IH1 (m2 ++ t)). rewrite <- app_assoc. exact IH1.
    + simpl; rewrite ?length_app; simpl; rewrite ?length_app; lia.
    + specialize (IH2 t). simpl in IH2.
      eapply star_rem_mono; [|exact IH2].
      simpl; rewrite ?length_app; simpl; rewrite ?length_app; lia.
  - apply IH.
Qed.

Lemma find_at_eq r pos s :
  find_at r pos s =
  match head (remainders r s) with
  | Some rest => Some (pos, pos + (length s - length rest))%nat
  | None => match s with [] => None | _ :: t => find_at r (S pos) t end
  end.
Proof. destruct s; reflexivity. Qed.

Lemma head_remainders r s rest :
  head (remainders r s) = Some rest ->
  exists m, s = m ++ rest /\ Matches r m
            /\ (length s - length rest)%nat = length m.
Proof.
  intros E. apply head_Some_elem_of, remainders_sound in E.
  destruct E as (m & -> & Hm). exists m.
  rewrite length_app. repeat split; [assumption|lia].
Qed.

Lemma find_at_Some r pos s i j :
  find_at r pos s = Some (i, j) ->
  exists pre m post,
    s = pre ++ m ++ post /\ i = (pos + length pre)%nat
    /\ j = (i + length m)%nat /\ Matches r m
    /\ forall k, (k < length pre)%nat -> remainders r (drop k s) = [].
Proof.
  revert pos. induction s as [|c s IH]; intros pos; rewrite find_at_eq.
  - destruct (head (remainders r [])) as [rest|] eqn:E; [|discriminate].
    intros [= <- <-]. apply head_remainders in E as (m & Hs & Hm & Hlen).
    exists [], m, rest. simpl in *.
    repeat split; [assumption|lia|lia|assumption|intros; lia].
  - destruct (head (remainders r (c :: s))) as [rest|] eqn:E.
    + intros [= <- <-]. apply head_remainders in E as (m & Hs & Hm & Hlen).
      exists [], m, rest. simpl in *.
      repeat split; [assumption|lia|lia|assumption|intros; lia].
    + intros Hf. apply IH in Hf as (pre & m & post & -> & -> & -> & Hm & Hk).
      exists (c :: pre), m, post. simpl.
      repeat split; [lia|assumption|].
      intros [|k] Hlt; [apply head_None, E|]. simpl. apply Hk. lia.
Qed.

Lemma find_at_None r pos s :
  find_at r pos s = None <->
  forall k, (k <= length s)%nat -> remainders r (drop k s) = [].
Proof.
  revert pos. induction s as [|c s IH]; intros pos; rewrite find_at_eq.
  - destruct (head (remainders r [])) as [rest|] eqn:E.
    + split; [discriminate|]. intros H. specialize (H 0%nat (Nat.le_refl _)).
      simpl in H. rewrite H in E. discriminate.
    + split; [|reflexivity]. intros _ k Hk. simpl in Hk.
      replace k with 0%nat by lia. apply head_None, E.
  - destruct (head (remainders r (c :: s))) as [rest|] eqn:E.
    + split; [discriminate|]. intros H. specialize (H 0%nat (Nat.le_0_l _)).
      simpl in H. rewrite H in E. discriminate.
    + rewrite IH. split.
      * intros H [|k] Hk; [apply head_None, E|]. simpl. apply H.
        simpl in Hk. lia.
      * intros H k Hk. apply (H (S k)). simpl. lia.
Qed.

(** [Find] returns a span that matches, and no span that matches starts
    before it. *)
Lemma Find_Some r b m :
  Find r b = Some m ->
  exists pre post,
    b = pre ++ m ++ post /\ Matches r m
    /\ forall pre' m' post',
        b = pre' ++ m' ++ post' -> Matches r m' ->
        (length pre <= length pre')%nat.
Proof.
  unfold Find, FindIndex.
  destruct (find_at r 0 b) as [[i j]|] eqn:E; [|discriminate].
  apply find_at_Some in E as (pre & m0 & post & Hb & -> & -> & Hm & Hk).
  intros [= <-]. exists pre, post. simpl.
  replace (length pre + length m0 - length pre)%nat with (length m0) by lia.
  rewrite Hb, drop_app_length, take_app_length.
  repeat split; [assumption|].
  intros pre' m' post' Hb' Hm'.
  destruct (decide (length pre <= length pre')%nat) as [|Hlt]; [assumption|].
  exfalso. specialize (Hk (length pre') ltac:(lia)).
  rewrite Hb, Hb', drop_app_length in Hk.
  pose proof (remainders_complete _ _ Hm' post') as Hin.
  rewrite Hk in Hin. apply elem_of_nil in Hin. exact Hin.
Qed.

Lemma Find_None r b :
  Find r b = None <->
  forall pre m post, b = pre ++ m ++ post -> ~ Matches r m.
Proof.
  split.
  - unfold Find, FindIndex.
    destruct (find_at r 0 b) as [[i j]|] eqn:E; [discriminate|]. intros _.
    intros pre m post Hb Hm.
    pose proof (proj1 (find_at_None _ _ _) E (length pre)) as Hk.
    rewrite Hb in Hk. rewrite drop_app_length, length_app in Hk.
    pose proof (remainders_complete _ _ Hm post) as Hin.
    rewrite Hk in Hin by lia. apply elem_of_nil in Hin. exact Hin.
  - intros H. destruct (Find r b) as [m|] eqn:E; [|reflexivity].
    apply Find_Some in E as (pre & post & Hb & Hm & _).
    destruct (H _ _ _ Hb Hm).
Qed.

End regexp_facts.

(* ===================================================================== *)
(** * Facts about strings.Replace *)
(* ===================================================================== *)

Lemma has_prefix_true p s : has_prefix p s = true <-> exists t, s = p ++ t.
Proof.
  revert s. induction p as [|a p IH]; intros s; simpl.
  - split; [exists s; reflexivity|reflexivity].
  - destruct s as [|b s].
    + split; [discriminate|]. intros [t Ht]. discriminate.
    + rewrite andb_true_iff, bool_decide_eq_true, IH. split.
      * intros [-> [t ->]]. exists t. reflexivity.
      * intros [t [= -> ->]]. split; [reflexivity|exists t; reflexivity].
Qed.

Lemma Replace_fuel_first old new post pre fuel :
  old <> [] ->
  (length (pre ++ old ++ post) < fuel)%nat ->
  (forall pre' post',
      pre ++ old ++ post = pre' ++ old ++ post' ->
      (length pre <= length pre')%nat) ->
  Replace_fuel fuel (pre ++ old ++ post) old new 1 = pre ++ new ++ post.
Proof.
  intros Hne. revert fuel.
  induction pre as [|c pre IH]; intros fuel Hfuel Hfirst;
    (destruct fuel as [|fuel]; [lia|]); simpl.
  - replace (has_prefix old (old ++ post)) with true
      by (symmetry; apply has_prefix_true; exists post; reflexivity).
    rewrite drop_app_length. destruct fuel; reflexivity.
  - destruct (has_prefix old (c :: pre ++ old ++ post)) eqn:E.
    + apply has_prefix_true in E as [t Ht].
      specialize (Hfirst [] t Ht). simpl in Hfirst. lia.
    + f_equal. apply IH; [simpl in Hfuel; lia|].
      intros pre' post' Heq.
      specialize (Hfirst (c :: pre') post'). simpl in Hfirst.
      rewrite Heq in Hfirst. specialize (Hfirst eq_refl). lia.
Qed.

(** Replacing once replaces the leftmost occurrence. *)
Lemma strings_Replace_first pre old post new :
  old <> [] ->
  (forall pre' post',
      pre ++ old ++ post = pre' ++ old ++ post' ->
      (length pre <= length pre')%nat) ->
  strings_Replace (pre ++ old ++ post) old new 1 = pre ++ new ++ post.
Proof.
  intros Hne Hfirst. unfold strings_Replace.
  apply Replace_fuel_first; [assumption|lia|assumption].
Qed.

Lemma strings_Replace_head c t :
  strings_Replace (c :: t) [c] [] 1 = t.
Proof.
  apply (strings_Replace_first [] [c] t []); [discriminate|].
  intros; simpl; lia.
Qed.

(* ===================================================================== *)
(** * JSON repair: what a matched span looks like *)
(* ===================================================================== *)

Lemma Matches_dots mid :
  newline ∉ mid <-> Matches (Star AnyCharNotNL) mid.
Proof.
  split.
  - induction mid as [|c mid IH]; intros Hnl; [constructor|].
    apply not_elem_of_cons in Hnl as [Hc Hmid].
    apply (MStarCons AnyCharNotNL [c] mid); [discriminate| |auto].
    constructor. congruence.
  - remember (Star AnyCharNotNL) as r eqn:Hr. induction 1; try discriminate.
    + apply not_elem_of_nil.
    + injection Hr as ->. match goal with H : Matches AnyCharNotNL _ |- _ =>
        inversion H; subst end.
      simpl. apply not_elem_of_cons. split; [congruence|auto].
Qed.

(** A span matches the pattern exactly when it is an opening quote and
    bracket or brace, any text without a newline, and a closing bracket or
    brace and quote. *)
Lemma Matches_invalidZbJSONRegex m :
  Matches invalidZbJSONRegex m <->
  exists o mid c,
    m = quote :: o :: mid ++ [c; quote]
    /\ (o = lbrack \/ o = lbrace) /\ (c = rbrack \/ c = rbrace)
    /\ newline ∉ mid.
Proof.
  split.
  - intros H. unfold invalidZbJSONRegex in H.
    repeat match goal with
           | H : Matches (Concat _ _) _ |- _ => inversion H; subst; clear H
           | H : Matches (Capture _) _ |- _ => inversion H; subst; clear H
           | H : Matches (Alternate _ _) _ |- _ => inversion H; subst; clear H
           | H : Matches (Literal _) _ |- _ => inversion H; subst; clear H
           end;
      match goal with H : Matches (Star _) ?mid |- _ =>
        apply Matches_dots in H; simpl;
        eexists _, mid, _; (split; [reflexivity|]); auto end.
  - intros (o & mid & c & -> & Ho & Hc & Hmid).
    apply (MConcat _ _ [quote; o] (mid ++ [c; quote])).
    + constructor.
      destruct Ho as [-> | ->]; [apply MAlternateL|apply MAlternateR];
        apply (MConcat _ _ [_] [_]); constructor.
    + apply MConcat; [constructor; apply Matches_dots; assumption|].
      constructor.
      destruct Hc as [-> | ->]; [apply MAlternateL|apply MAlternateR];
        apply (MConcat _ _ [_] [_]); constructor.
Qed.

Lemma Find_DefectOccurs json :
  is_Some (Find invalidZbJSONRegex json) <-> DefectOccurs json.
Proof.
  unfold DefectOccurs. split.
  - intros [m Hm]. apply regexp_facts.Find_Some in Hm as (pre & post & ? & ? & _).
    eauto.
  - intros (pre & m & post & Hj & Hm).
    destruct (Find invalidZbJSONRegex json) eqn:E; [eauto|].
    destruct (proj1 (regexp_facts.Find_None _ _) E _ _ _ Hj Hm).
Qed.

(** C2: on a frame that shows the quote-wrapping defect, [wsFixInvalidJSON]
    removes the first and the last byte of the first matched span, both of
    them quotation characters, and returns every other byte of the frame
    as it was: with the frame read as [pre ++ quote :: body ++ quote ::
    post], where [quote :: body ++ [quote]] is the span [Find] returns and
    no matching span starts before it, the result is [pre ++ body ++ post]. *)
Theorem wsFixInvalidJSON_strips_quotes (json : bytes) :
  DefectOccurs json ->
  exists pre body post,
    Find invalidZbJSONRegex json = Some (quote :: body ++ [quote])
    /\ json = pre ++ (quote :: body ++ [quote]) ++ post
    /\ (forall pre' m' post',
          json = pre' ++ m' ++ post' -> Matches invalidZbJSONRegex m' ->
          (length pre <= length pre')%nat)
    /\ wsFixInvalidJSON json = pre ++ body ++ post.
Proof.
  intros Hd. apply Find_DefectOccurs in Hd as [m Hfind].
  pose proof Hfind as Hspec.
  apply regexp_facts.Find_Some in Hspec as (pre & post & Hj & Hm & Hleft).
  pose proof Hm as Hshape.
  apply Matches_invalidZbJSONRegex in Hshape as (o & mid & c & -> & _).
  exists pre, (o :: mid ++ [c]), post.
  assert (Hm_eq : quote :: o :: mid ++ [c; quote]
                  = quote :: (o :: mid ++ [c]) ++ [quote])
    by (simpl; rewrite <- app_assoc; reflexivity).
  rewrite Hm_eq in *. clear Hm_eq.
  repeat split; [assumption..|].
  unfold wsFixInvalidJSON. rewrite Hfind. cbv zeta.
  rewrite strings_Replace_head.
  rewrite (take_app_length' (o :: mid ++ [c]) [quote])
    by (rewrite length_app; simpl; lia).
  rewrite Hj at 1. apply strings_Replace_first; [discriminate|].
  intros pre' post' Heq. rewrite <- Hj in Heq. eapply Hleft; eassumption.
Qed.

(** C3: on a frame in which no span matches the defect pattern,
    [wsFixInvalidJSON] returns its input. *)
Theorem wsFixInvalidJSON_identity (json : bytes) :
  ~ DefectOccurs json -> wsFixInvalidJSON json = json.
Proof.
  intros Hno. unfold wsFixInvalidJSON.
  destruct (Find invalidZbJSONRegex json) as [m|] eqn:E; [|reflexivity].
  destruct Hno. apply Find_DefectOccurs. eauto.
Qed.

Lemma wsFixInvalidJSON_strips_quotes_witness :
  DefectOccurs Fixtures.frame_quoted_array /\
  exists pre body post,
    Find invalidZbJSONRegex Fixtures.frame_quoted_array = Some (quote :: body ++ [quote])
    /\ Fixtures.frame_quoted_array = pre ++ (quote :: body ++ [quote]) ++ post
    /\ (forall pre' m' post',
          Fixtures.frame_quoted_array = pre' ++ m' ++ post' ->
          Matches invalidZbJSONRegex m' ->
          (length pre <= length pre')%nat)
    /\ wsFixInvalidJSON Fixtures.frame_quoted_array = pre ++ body ++ post.
Proof.
  split.
  - apply Find_DefectOccurs. eexists. vm_compute. reflexivity.
  - apply (wsFixInvalidJSON_strips_quotes Fixtures.frame_quoted_array).
    apply Find_DefectOccurs. eexists. vm_compute. reflexivity.
Defined.

Lemma wsFixInvalidJSON_identity_witness :
  ~ DefectOccurs Fixtures.frame_plain /\ wsFixInvalidJSON Fixtures.frame_plain = Fixtures.frame_plain.
Proof.
  assert (H : ~ DefectOccurs Fixtures.frame_plain).
  { intros Hd. apply Find_DefectOccurs in Hd as [m Hm].
    vm_compute in Hm. discriminate Hm. }
  split; [exact H|]. apply (wsFixInvalidJSON_identity Fixtures.frame_plain H).
Defined.

Example Split_example :
  strings_Split "btcusdt_depth" "_" = ["btcusdt"; "depth"].
Proof. reflexivity. Qed.
Example Sprintf_example : Sprintf_s "%s_ticker" "btcusd" = "btcusd_ticker".
Proof. reflexivity. Qed.
Example Sprintf_x_example : Sprintf_x [x00; xff; x1a] = "00ff1a".
Proof. reflexivity. Qed.

(* ===================================================================== *)
(** * The reader loop: one frame *)
(* ===================================================================== *)

Ltac unfold_statements :=
  cbv [mbind M_bind mret M_ret when or_else leave modify send DataHandler
       index LoadSnapshot called WebsocketConn_GenerateMessageID
       WebsocketConn_SendMessageReturnResponse wsGenerateSignature] in *.

Section ReaderLoopFacts.
Context `{Collaborators}.

Lemma emit_emit st a b : emit (emit st a) b = emit st (a ++ b).
Proof. unfold emit; simpl. rewrite app_assoc. reflexivity. Qed.

Lemma emit_nil st : emit st [] = st.
Proof. destruct st. unfold emit; simpl. rewrite app_nil_r. reflexivity. Qed.

Lemma request_failed_true code :
  request_failed code = true <-> code > 0 /\ code <> 1000.
Proof.
  unfold request_failed.
  rewrite andb_true_iff, !bool_decide_eq_true. reflexivity.
Qed.

Lemma request_failed_false code :
  request_failed code = false <-> code <= 0 \/ code = 1000.
Proof.
  rewrite <- not_true_iff_false, request_failed_true. lia.
Qed.

Lemma No_not_positive (no : Z) : no <= 0 -> bool_decide (no > 0) = false.
Proof. intros. apply bool_decide_eq_false. lia. Qed.

Lemma handle_frame_unparseable z raw err st :
  json_Unmarshal_Generic (wsFixInvalidJSON raw) = Err err ->
  handle_frame z raw st
  = (inr Continue,
     emit st [TrafficAlert_send; DataHandler_send (DH_error (Foreign err))]).
Proof.
  intros Hparse. unfold handle_frame, emit. unfold_statements.
  rewrite Hparse. simpl. rewrite <- app_assoc. reflexivity.
Qed.

Lemma handle_frame_correlated z raw result st :
  json_Unmarshal_Generic (wsFixInvalidJSON raw) = Ok result ->
  Generic.No result > 0 ->
  handle_frame z raw st
  = (inr Continue,
     emit st [TrafficAlert_send;
              AddResponseWithID_call (Generic.No result) (wsFixInvalidJSON raw)]).
Proof.
  intros Hparse Hno. unfold handle_frame, emit. unfold_statements.
  rewrite Hparse. rewrite bool_decide_eq_true_2 by assumption.
  simpl. rewrite <- app_assoc. reflexivity.
Qed.

Lemma handle_frame_request_failed z raw result st :
  json_Unmarshal_Generic (wsFixInvalidJSON raw) = Ok result ->
  Generic.No result <= 0 ->
  Generic.Code result > 0 -> Generic.Code result <> 1000 ->
  handle_frame z raw st
  = (inr Continue,
     emit st [TrafficAlert_send;
              DataHandler_send
                (DH_error (errorf_request_failed z (Generic.Message result)
                             (Generic.Code result)))]).
Proof.
  intros Hparse Hno Hpos Hne. unfold handle_frame, emit. unfold_statements.
  rewrite Hparse, No_not_positive by assumption.
  rewrite (proj2 (request_failed_true _)) by (split; assumption).
  simpl. rewrite <- app_assoc. reflexivity.
Qed.

Lemma handle_frame_unhandled z raw result st :
  json_Unmarshal_Generic (wsFixInvalidJSON raw) = Ok result ->
  Generic.No result <= 0 ->
  Generic.Code result <= 0 \/ Generic.Code result = 1000 ->
  unhandled_channel (Generic.Channel result) ->
  handle_frame z raw st
  = (inr Continue,
     emit st [TrafficAlert_send;
              DataHandler_send (DH_error UnhandledWebsocketResponse)]).
Proof.
  intros Hparse Hno Hcode (Hm & Ht & Hd & Htr).
  unfold handle_frame, emit. unfold_statements.
  rewrite Hparse, No_not_positive by assumption.
  rewrite (proj2 (request_failed_false _)) by assumption.
  rewrite Hm, Ht, Hd, Htr.
  simpl. rewrite <- app_assoc. reflexivity.
Qed.

Lemma handle_frame_local_error z raw err st :
  frame_local_error z raw err ->
  handle_frame z raw st
  = (inr Continue,
     emit st [TrafficAlert_send; DataHandler_send (DH_error err)]).
Proof.
  intros [e He|result Hparse Hno Hpos Hne|result Hparse Hno Hcode Hch].
  - apply handle_frame_unparseable; assumption.
  - apply handle_frame_request_failed; assumption.
  - eapply handle_frame_unhandled; eassumption.
Qed.

Lemma Split_fuel_head fuel cur s sep :
  exists first parts, Split_fuel fuel cur s sep = first :: parts.
Proof.
  revert cur s. induction fuel as [|fuel IH]; intros cur s; simpl; [eauto|].
  destruct s as [|c t]; [eauto|].
  destruct (String.prefix sep (String c t)); [eauto|apply IH].
Qed.

(** [strings.Split] never returns an empty slice here, so the index
    expression [channelInfo[0]] finds its element. *)
Lemma strings_Split_head s sep :
  exists first, head (strings_Split s sep) = Some first.
Proof.
  destruct (Split_fuel_head (String.length s) EmptyString s sep)
    as (first & parts & Heq).
  exists first. unfold strings_Split. rewrite Heq. reflexivity.
Qed.

Lemma lookup_0_head {A} (l : list A) : l !! 0%nat = head l.
Proof. destruct l; reflexivity. Qed.

Lemma lookup_last {A} (l : list A) (x : A) :
  (l ++ [x]) !! (length (l ++ [x]) - 1)%nat = Some x.
Proof.
  rewrite length_app. simpl.
  replace (length l + 1 - 1)%nat with (length l + 0)%nat by lia.
  rewrite lookup_app_r by lia.
  replace (length l + 0 - length l)%nat with 0%nat by lia. reflexivity.
Qed.

(** The conversions of the depth branch leave the state alone. *)
Lemma append_items_state entries items st :
  snd (append_items entries items st) = st.
Proof.
  revert items. induction entries as [|entry rest IH]; intros items; simpl;
    [reflexivity|].
  unfold_statements.
  destruct (entry !! 1%nat) as [[]|]; try reflexivity.
  destruct (entry !! 0%nat) as [[]|]; try reflexivity.
  apply IH.
Qed.

(** An entry whose amount is not a [float64] stops the conversion with a
    panic, whatever follows it, when the entries before it are
    well-formed. *)
Lemma append_items_panics good entry amount rest items st :
  Forall (fun e => exists a p more,
              e = Ifloat64 p :: Ifloat64 a :: more) good ->
  entry !! 1%nat = Some amount ->
  (forall f, amount <> Ifloat64 f) ->
  append_items (good ++ entry :: rest) items st
  = (inr (Panic (InterfaceConversion amount)), st).
Proof.
  intros Hgood Hentry Hnot. revert items.
  induction Hgood as [|e good (a & p & more & ->) _ IH]; intros items; simpl.
  - unfold_statements. rewrite Hentry.
    destruct amount; try reflexivity. destruct (Hnot f eq_refl).
  - unfold_statements. simpl. apply IH.
Qed.

(** The [for] statement goes on after a frame unless the frame panics. *)
Lemma WsHandleData_loop_frame z raw rest st :
  WsHandleData_loop z (ReadMessage_frame raw :: rest) st
  = match handle_frame z raw st with
    | (inr (Panic p), st') => (Panicked p, st')
    | (_, st') => WsHandleData_loop z rest st'
    end.
Proof. reflexivity. Qed.

Lemma WsHandleData_loop_local_error z raw err rest st :
  frame_local_error z raw err ->
  WsHandleData_loop z (ReadMessage_frame raw :: rest) st
  = WsHandleData_loop z rest
      (emit st [TrafficAlert_send; DataHandler_send (DH_error err)]).
Proof.
  intros Herr. rewrite WsHandleData_loop_frame.
  rewrite (handle_frame_local_error _ _ _ _ Herr). reflexivity.
Qed.

Lemma WsHandleData_loop_local_errors z raws errs tail st :
  Forall2 (frame_local_error z) raws errs ->
  WsHandleData_loop z ((ReadMessage_frame <$> raws) ++ tail) st
  = WsHandleData_loop z tail (emit st (reported errs)).
Proof.
  intros Hall. revert st.
  induction Hall as [|raw err raws errs Herr _ IH]; intros st.
  - simpl. rewrite emit_nil. reflexivity.
  - rewrite fmap_cons, <- app_comm_cons.
    rewrite (WsHandleData_loop_local_error _ _ _ _ _ Herr), IH, emit_emit.
    reflexivity.
Qed.

End ReaderLoopFacts.

(* ===================================================================== *)
(** * The reader loop: the claims *)
(* ===================================================================== *)

Section ReaderLoopClaims.
Context `{Collaborators}.

(** C1, as amended: frames with an error of their own never end the
    reader loop.  A frame that does not parse after repair, a frame that
    is not a correlated reply and carries a failure code, and a frame that
    is not a correlated reply, carries no failure code and has a channel no
    branch handles each put exactly one error on [DataHandler], and after
    any number of them the loop is still reading.  A failure of
    [ReadMessage] after them is reported once, on [ReadMessageErrors], and
    the loop returns without looking at anything that follows. *)
Theorem reader_loop_error_policy z raws errs fatal rest st :
  Forall2 (frame_local_error z) raws errs ->
  WsHandleData_loop z (ReadMessage_frame <$> raws) st
  = (Reading, emit st (reported errs))
  /\ WsHandleData_loop z
       ((ReadMessage_frame <$> raws) ++ ReadMessage_error fatal :: rest) st
     = (Returned, emit st (reported errs ++ [ReadMessageErrors_send fatal])).
Proof.
  intros Hall. split.
  - rewrite <- (app_nil_r (ReadMessage_frame <$> raws)).
    rewrite (WsHandleData_loop_local_errors _ _ _ _ _ Hall). reflexivity.
  - rewrite (WsHandleData_loop_local_errors _ _ _ _ _ Hall). simpl.
    unfold_statements. simpl. rewrite <- emit_emit. reflexivity.
Qed.

(** C10: a parsed frame whose correlation identifier [No] is positive is
    handed to [AddResponseWithID] under that identifier and the loop goes
    to the next frame; whatever its code and its channel, nothing is put
    on [DataHandler] for it. *)
Theorem correlated_reply_precedence z raw result rest st :
  json_Unmarshal_Generic (wsFixInvalidJSON raw) = Ok result ->
  Generic.No result > 0 ->
  let delivered :=
    [TrafficAlert_send;
     AddResponseWithID_call (Generic.No result) (wsFixInvalidJSON raw)] in
  handle_frame z raw st = (inr Continue, emit st delivered)
  /\ (forall v, DataHandler_send v ∉ delivered)
  /\ WsHandleData_loop z (ReadMessage_frame raw :: rest) st
     = WsHandleData_loop z rest (emit st delivered).
Proof.
  intros Hparse Hno delivered.
  pose proof (handle_frame_correlated z raw result st Hparse Hno) as Hframe.
  repeat split.
  - exact Hframe.
  - intros v Hin. unfold delivered in Hin.
    repeat (apply elem_of_cons in Hin as [Hin|Hin]; [discriminate Hin|]).
    apply elem_of_nil in Hin. exact Hin.
  - rewrite WsHandleData_loop_frame, Hframe. reflexivity.
Qed.

(** C5: a frame of the trades branch whose batch is not empty puts exactly
    one [TradeData] on [DataHandler]; its price, amount and side are those
    of the last element of the batch, and nothing is sent for the elements
    before it. *)
Theorem trade_batch_emits_last z raw result trades earlier t st :
  json_Unmarshal_Generic (wsFixInvalidJSON raw) = Ok result ->
  Generic.No result <= 0 ->
  request_failed (Generic.Code result) = false ->
  trades_channel (Generic.Channel result) ->
  json_Unmarshal_WsTrades (wsFixInvalidJSON raw) = Ok trades ->
  WsTrades.Data trades = earlier ++ [t] ->
  exists instrument,
    head (strings_Split (Generic.Channel result) "_") = Some instrument
    /\ handle_frame z raw st
       = (inl tt,
          emit st
            [TrafficAlert_send;
             DataHandler_send (DH_TradeData
               {| wshandler.Timestamp := time.Unix (WsTrades.Date t) 0;
                  wshandler.CurrencyPair := currency_NewPairFromString instrument;
                  wshandler.AssetType := asset.Spot;
                  wshandler.Exchange := Name z;
                  wshandler.Price := WsTrades.Price t;
                  wshandler.Amount := WsTrades.Amount t;
                  wshandler.Side := WsTrades.TradeType t |})]).
Proof.
  intros Hparse Hno Hcode (Hm & Ht & Hd & Htr) Htrades Hdata.
  destruct (strings_Split_head (Generic.Channel result) "_") as [instrument Hi].
  exists instrument. split; [exact Hi|].
  unfold handle_frame, emit. unfold_statements.
  rewrite Hparse, No_not_positive, Hcode by assumption.
  rewrite Hm, Ht, Hd, Htr, Htrades, Hdata.
  rewrite bool_decide_eq_false_2
    by (rewrite length_app; simpl; lia).
  rewrite lookup_last, lookup_0_head, Hi.
  simpl. rewrite <- app_assoc. reflexivity.
Qed.

Ltac no_such_event :=
  let Hin := fresh "Hin" in
  intros ? ? ? Hin; simpl in Hin;
  repeat (apply elem_of_cons in Hin as [Hin|Hin]; [discriminate Hin|]);
  apply elem_of_nil in Hin; exact Hin.

(** With a code that is no failure, whatever else a frame leads to, the
    error of a failed request is not among the events it causes. *)
Lemma handle_frame_success_code z raw result st :
  json_Unmarshal_Generic (wsFixInvalidJSON raw) = Ok result ->
  request_failed (Generic.Code result) = false ->
  exists events,
    sent (snd (handle_frame z raw st)) = sent st ++ events
    /\ forall name message code_text,
        DataHandler_send (DH_error (RequestFailed name message code_text))
        ∉ events.
Proof.
  intros Hparse Hcode. unfold handle_frame. unfold_statements.
  rewrite Hparse, Hcode.
  destruct (bool_decide (Generic.No result > 0)).
  { eexists. split; [simpl; rewrite <- app_assoc; reflexivity|no_such_event]. }
  destruct (strings_Contains (Generic.Channel result) "markets").
  { destruct (json_Unmarshal_Markets _);
      (eexists; split; [simpl; rewrite <- ?app_assoc; reflexivity|no_such_event]). }
  destruct (strings_Contains (Generic.Channel result) "ticker").
  { destruct (json_Unmarshal_WsTicker _);
      [destruct (strings_Split _ _ !! 0%nat)|];
      (eexists; split; [simpl; rewrite <- ?app_assoc; reflexivity|no_such_event]). }
  destruct (strings_Contains (Generic.Channel result) "depth").
  { destruct (json_Unmarshal_WsDepth _) as [depth|];
      [|eexists; split; [simpl; rewrite <- ?app_assoc; reflexivity|no_such_event]].
    match goal with |- context [append_items ?e ?i ?s] =>
      pose proof (append_items_state e i s) as Hasks;
      destruct (append_items e i s) as [[asks|[|p]] st1] end;
      simpl in Hasks; subst st1;
      try (eexists; split; [simpl; reflexivity|no_such_event]).
    match goal with |- context [append_items ?e ?i ?s] =>
      pose proof (append_items_state e i s) as Hbids;
      destruct (append_items e i s) as [[bids|[|p]] st1] end;
      simpl in Hbids; subst st1;
      try (eexists; split; [simpl; reflexivity|no_such_event]).
    destruct (strings_Split _ _ !! 0%nat);
      [|eexists; split; [simpl; reflexivity|no_such_event]].
    simpl. destruct (Orderbook_LoadSnapshot _ _) as [book' [err|]];
      (eexists; split; [simpl; rewrite <- ?app_assoc; reflexivity|no_such_event]). }
  destruct (strings_Contains (Generic.Channel result) "trades").
  { destruct (json_Unmarshal_WsTrades _) as [trades|];
      [|eexists; split; [simpl; rewrite <- ?app_assoc; reflexivity|no_such_event]].
    destruct (bool_decide _);
      [eexists; split; [simpl; reflexivity|no_such_event]|].
    destruct (WsTrades.Data trades !! _);
      [|eexists; split; [simpl; reflexivity|no_such_event]].
    destruct (strings_Split _ _ !! 0%nat);
      (eexists; split; [simpl; rewrite <- ?app_assoc; reflexivity|no_such_event]). }
  eexists. split; [simpl; rewrite <- app_assoc; reflexivity|no_such_event].
Qed.

(** A depth frame with an ask whose amount is not a [float64], after asks
    that are well-formed, ends the goroutine: the type assertion panics,
    nothing was put on [DataHandler], and no later frame is read. *)
Lemma depth_amount_not_float64_panics z raw result depth good entry amount
    others rest st :
  json_Unmarshal_Generic (wsFixInvalidJSON raw) = Ok result ->
  Generic.No result <= 0 ->
  request_failed (Generic.Code result) = false ->
  depth_channel (Generic.Channel result) ->
  json_Unmarshal_WsDepth (wsFixInvalidJSON raw) = Ok depth ->
  WsDepth.Asks depth = good ++ entry :: others ->
  Forall (fun e => exists a p more,
              e = Ifloat64 p :: Ifloat64 a :: more) good ->
  entry !! 1%nat = Some amount ->
  (forall f, amount <> Ifloat64 f) ->
  WsHandleData_loop z (ReadMessage_frame raw :: rest) st
  = (Panicked (InterfaceConversion amount), emit st [TrafficAlert_send]).
Proof.
  intros Hparse Hno Hcode (Hm & Ht & Hd) Hdepth Hasks Hgood Hentry Hnot.
  rewrite WsHandleData_loop_frame.
  unfold handle_frame, emit. unfold_statements.
  rewrite Hparse, No_not_positive, Hcode by assumption.
  rewrite Hm, Ht, Hd, Hdepth, Hasks.
  rewrite (append_items_panics good entry amount others [] _ Hgood Hentry Hnot).
  reflexivity.
Qed.

End ReaderLoopClaims.

(* ===================================================================== *)
(** * Signing and the authenticated operations: the claims *)
(* ===================================================================== *)

Ltac unfold_operation :=
  cbv [run perform wsAddSubUser wsGetSubUserList wsDoTransferFunds
       wsCreateSubUserKey wsSubmitOrder wsCancelOrder wsGetOrder wsGetOrders
       wsGetOrdersIgnoreTradeType wsGetAccountInfoRequest reply_envelope] in *;
  unfold_statements.

(** One step of an operation: the next call to a collaborator, or the next
    test, with each of its outcomes. *)
Ltac step_call :=
  match goal with
  | |- context [negb (AuthenticatedWebsocketSupport ?z)] =>
      destruct (AuthenticatedWebsocketSupport z) eqn:?
  | |- context [GenerateMessageID ?c ?b] =>
      destruct (GenerateMessageID c b) as [? ?] eqn:?
  | |- context [json_Marshal ?r] => destruct (json_Marshal r) eqn:?
  | |- context [SendMessageReturnResponse ?c ?i ?r] =>
      destruct (SendMessageReturnResponse c i r) as [[?|?] ?] eqn:?
  | |- context [json_Unmarshal_Generic ?b] =>
      destruct (json_Unmarshal_Generic b) eqn:?
  | |- context [json_Unmarshal_Response ?t ?b] =>
      destruct (json_Unmarshal_Response t b) eqn:?
  | |- context [request_failed ?c] => destruct (request_failed c) eqn:?
  end; simpl.

Section AuthenticatedClaims.
Context `{Collaborators}.

(** C8: when authenticated websocket support is not enabled, each of the
    ten authenticated operations returns the error that says so and a nil
    reply, and leaves the world as it found it: no message identifier was
    drawn, [wsGenerateSignature] was not called, nothing was sent. *)
Theorem not_authenticated_rejected z (o : Operation) (w : World) :
  GetAuthenticatedAPISupport z WebsocketAuthentication = false ->
  run (perform z o) w
  = ((None, Some (AuthenticatedWebsocketAPISupportNotEnabled (Name z))), w).
Proof.
  intros Hoff. destruct o; unfold_operation; rewrite Hoff; reflexivity.
Qed.

(** C9: the signature depends on the command and on the secret only: two
    calls with the same command and receivers that hold the same secret
    return the same digest, whatever else differs between the receivers
    and whatever the connection has been through. *)
Theorem wsGenerateSignature_deterministic z1 z2 (w1 w2 : World) request :
  API_Credentials_Secret z1 = API_Credentials_Secret z2 ->
  exists digest : string,
    fst (wsGenerateSignature (E:=Reply) z1 request w1) = inl digest
    /\ fst (wsGenerateSignature (E:=Reply) z2 request w2) = inl digest.
Proof.
  intros Hsecret. unfold_statements. rewrite Hsecret.
  destruct (json_Marshal request); simpl; eauto.
Qed.

(** The error of a failed request comes out of an operation only for the
    reply it received, the last thing it did to the connection, decoded
    with a code that is a failure. *)
Lemma perform_request_failed z o w reply name message code_text w' :
  run (perform z o) w = ((reply, Some (RequestFailed name message code_text)), w') ->
  exists c id request resp code,
    SendMessageReturnResponse c id request = (Ok resp, conn w')
    /\ last (calls w') = Some (Called_SendMessageReturnResponse id request)
    /\ reply_envelope o resp = Ok (code, message)
    /\ request_failed code = true.
Proof.
  destruct o; unfold_operation; simpl; repeat step_call;
    intros Hrun; try discriminate Hrun;
    injection Hrun as ? ? ? ? ?; subst;
    match goal with
    | Hs : SendMessageReturnResponse ?c ?id ?rq = (Ok ?resp, _),
      Hf : request_failed ?code = true |- _ =>
        exists c, id, rq, resp, code;
        split; [exact Hs|split; [apply last_snoc|split; [|exact Hf]]]
    end;
    match goal with
    | Hd : _ = Ok _ |- _ => rewrite Hd; reflexivity
    end.
Qed.

(** C4: the success value 1000 and the absent code, zero, are never
    treated as an error.  In the reader loop, a parsed frame with such a
    code causes no failed-request error on [DataHandler], whatever else it
    leads to.  In the authenticated operations, a failed-request error is
    returned only for a received reply whose decoded code is another one. *)
Theorem success_code_never_an_error (code : Z) :
  code = 1000 \/ code = 0 ->
  (forall z raw st result,
      json_Unmarshal_Generic (wsFixInvalidJSON raw) = Ok result ->
      Generic.Code result = code ->
      exists events,
        sent (snd (handle_frame z raw st)) = sent st ++ events
        /\ forall name message code_text,
            DataHandler_send (DH_error (RequestFailed name message code_text))
            ∉ events)
  /\ (forall z o w reply name message code_text w',
         run (perform z o) w
         = ((reply, Some (RequestFailed name message code_text)), w') ->
         exists c id request resp code',
           SendMessageReturnResponse c id request = (Ok resp, conn w')
           /\ last (calls w') = Some (Called_SendMessageReturnResponse id request)
           /\ reply_envelope o resp = Ok (code', message)
           /\ code' > 0 /\ code' <> 1000 /\ code' <> code).
Proof.
  intros Hcode. split.
  - intros z raw st result Hparse <-.
    apply (handle_frame_success_code z raw result st Hparse).
    apply request_failed_false. lia.
  - intros z o w reply name message code_text w' Hrun.
    apply perform_request_failed in Hrun
      as (c & id & request & resp & code' & Hsend & Hlast & Henv & Hfailed).
    apply request_failed_true in Hfailed.
    exists c, id, request, resp, code'. repeat split; try assumption; lia.
Qed.

End AuthenticatedClaims.

(* ===================================================================== *)
(** * Default subscriptions: the claim *)
(* ===================================================================== *)

Section SubscriptionFacts.

Local Abbreviation sub := wshandler.WebsocketChannelSubscription.
Local Abbreviation strip := (currency.set_Delimiter EmptyString).

(** The inner loop, from any index on: the pairs before the index have
    their delimiter cleared already, the others get it cleared, and one
    subscription is appended for each of these. *)
Lemma range_enabledCurrencies_from format topic done todo
    (subscriptions : list sub) :
  (forall arg, Sprintf_s format arg = arg +:+ "_" +:+ topic) ->
  foldl (range_enabledCurrencies format)
        ((strip <$> done) ++ todo, subscriptions)
        (seq (length done) (length todo))
  = (strip <$> (done ++ todo),
     subscriptions ++ (topic_subscription topic ∘ normalized <$> todo)).
Proof.
  intros Hformat. revert done subscriptions.
  induction todo as [|p todo IH]; intros done subscriptions.
  - simpl. rewrite !app_nil_r. reflexivity.
  - assert (Halter : alter strip (length done) ((strip <$> done) ++ p :: todo)
                     = (strip <$> done) ++ strip p :: todo).
    { rewrite <- (length_fmap strip done).
      rewrite <- (Nat.add_0_r (length (strip <$> done))).
      rewrite alter_app_r. reflexivity. }
    assert (Hlookup : ((strip <$> done) ++ strip p :: todo) !! length done
                      = Some (strip p)).
    { apply list_lookup_middle. rewrite length_fmap. reflexivity. }
    simpl seq. simpl foldl. rewrite Halter, Hlookup, Hformat.
    specialize (IH (done ++ [p])
                  (subscriptions ++ [topic_subscription topic (normalized p)])).
    rewrite fmap_app, <- app_assoc, length_app in IH. simpl in IH.
    replace (length done + 1)%nat with (S (length done)) in IH by lia.
    etransitivity; [exact IH|]. rewrite <- !app_assoc. reflexivity.
Qed.

Lemma range_enabledCurrencies_all format topic (pairs : list currency.Pair)
    (subscriptions : list sub) :
  (forall arg, Sprintf_s format arg = arg +:+ "_" +:+ topic) ->
  foldl (range_enabledCurrencies format) (pairs, subscriptions)
        (seq 0 (length pairs))
  = (strip <$> pairs,
     subscriptions ++ (topic_subscription topic ∘ normalized <$> pairs)).
Proof. apply (range_enabledCurrencies_from format topic [] pairs). Qed.

Lemma topic_subscriptions_strip topic (pairs : list currency.Pair) :
  topic_subscription topic ∘ normalized <$> (strip <$> pairs)
  = (topic_subscription topic ∘ normalized <$> pairs).
Proof.
  rewrite <- list_fmap_compose. apply list_fmap_ext. intros p. reflexivity.
Qed.

(** The slice that [GenerateDefaultSubscriptions] hands over: the market
    channel, then topic by topic one channel per pair. *)
Lemma default_subscriptions_closed z :
  default_subscriptions z
  = markets_subscription
    :: (topic_subscription "ticker" ∘ normalized <$> GetEnabledPairs z asset.Spot)
    ++ (topic_subscription "depth" ∘ normalized <$> GetEnabledPairs z asset.Spot)
    ++ (topic_subscription "trades" ∘ normalized <$> GetEnabledPairs z asset.Spot).
Proof.
  unfold default_subscriptions. cbv zeta. cbn [foldl fst].
  rewrite !(range_enabledCurrencies_all "%s_ticker" "ticker") by reflexivity.
  cbn [fst].
  rewrite !(range_enabledCurrencies_all "%s_depth" "depth") by reflexivity.
  cbn [fst].
  rewrite !(range_enabledCurrencies_all "%s_trades" "trades") by reflexivity.
  cbn [snd].
  rewrite !topic_subscriptions_strip, <- !app_assoc. reflexivity.
Qed.

Lemma SubscribeToChannels_cons (acc : list sub) c channels :
  SubscribeToChannels acc (c :: channels)
  = SubscribeToChannels (if decide (c ∈ acc) then acc else acc ++ [c]) channels.
Proof. reflexivity. Qed.

(** The handler keeps the channels free of duplicates and adds exactly
    what it is given. *)
Lemma SubscribeToChannels_spec (acc channels : list sub) :
  NoDup acc ->
  NoDup (SubscribeToChannels acc channels)
  /\ forall s, s ∈ SubscribeToChannels acc channels <-> s ∈ acc \/ s ∈ channels.
Proof.
  revert acc. induction channels as [|c channels IH]; intros acc Hacc.
  - split; [exact Hacc|]. intros s. split; [intros; left; assumption|].
    intros [?|Hn]; [assumption|apply elem_of_nil in Hn; destruct Hn].
  - rewrite SubscribeToChannels_cons. destruct (decide _) as [Hin|Hout].
    + destruct (IH acc Hacc) as [Hnd Hmem]. split; [exact Hnd|].
      intros s. rewrite Hmem, elem_of_cons. split; [tauto|].
      intros [?|[->|?]]; tauto.
    + assert (Hacc' : NoDup (acc ++ [c])).
      { apply NoDup_app. repeat split; [assumption| |apply NoDup_singleton].
        intros x Hx Hc. apply list_elem_of_singleton in Hc as ->. tauto. }
      destruct (IH _ Hacc') as [Hnd Hmem]. split; [exact Hnd|].
      intros s. rewrite Hmem, elem_of_app, list_elem_of_singleton, elem_of_cons.
      tauto.
Qed.

Lemma SubscribeToChannels_NoDup (acc channels : list sub) :
  NoDup (acc ++ channels) -> SubscribeToChannels acc channels = acc ++ channels.
Proof.
  revert acc. induction channels as [|c channels IH]; intros acc Hnd.
  - simpl. rewrite app_nil_r. reflexivity.
  - rewrite SubscribeToChannels_cons.
    assert (Hout : c ∉ acc).
    { apply NoDup_app in Hnd as (_ & Hdisj & _). intros Hin.
      apply (Hdisj c Hin). apply elem_of_cons. left; reflexivity. }
    rewrite decide_False by exact Hout.
    rewrite IH; rewrite <- app_assoc; [reflexivity|exact Hnd].
Qed.

#[local] Instance topic_subscription_inj topic :
  Inj (=) (=) (topic_subscription topic).
Proof. intros n1 n2 Heq. injection Heq as _ Hn. exact Hn. Qed.

Lemma topic_subscription_topics t1 t2 n1 n2 :
  topic_subscription t1 n1 = topic_subscription t2 n2 -> t1 = t2 /\ n1 = n2.
Proof.
  intros Heq. injection Heq as Hch ->. split; [|reflexivity].
  apply (inj (String.app (currency.String n2))) in Hch.
  injection Hch as Ht. exact Ht.
Qed.

Lemma topic_subscription_not_markets topic n :
  topic_subscription topic n <> markets_subscription.
Proof. intros Heq. injection Heq as Hch ->. discriminate Hch. Qed.

Lemma default_subscriptions_NoDup z :
  NoDup (normalized <$> GetEnabledPairs z asset.Spot) ->
  NoDup (default_subscriptions z).
Proof.
  intros Hnd. rewrite default_subscriptions_closed.
  rewrite !list_fmap_compose.
  set (ns := normalized <$> GetEnabledPairs z asset.Spot) in *.
  assert (Hdisj : forall t1 t2 x, t1 <> t2 ->
             x ∈ topic_subscription t1 <$> ns ->
             x ∉ topic_subscription t2 <$> ns).
  { intros t1 t2 x Hne Hx1 Hx2.
    apply list_elem_of_fmap in Hx1 as (n1 & -> & _).
    apply list_elem_of_fmap in Hx2 as (n2 & Heq & _).
    apply topic_subscription_topics in Heq as [Ht _]. congruence. }
  apply NoDup_cons. split.
  - rewrite !elem_of_app, !list_elem_of_fmap.
    intros [(n & Heq & _)|[(n & Heq & _)|(n & Heq & _)]];
      symmetry in Heq; exact (topic_subscription_not_markets _ _ Heq).
  - apply NoDup_app. repeat split.
    + apply (NoDup_fmap_2 _), Hnd.
    + intros x Hx. rewrite elem_of_app. intros [Hy|Hy];
        revert Hy; apply (Hdisj "ticker"); [discriminate|exact Hx
                                           |discriminate|exact Hx].
    + apply NoDup_app. repeat split.
      * apply (NoDup_fmap_2 _), Hnd.
      * intros x Hx. apply (Hdisj "depth"); [discriminate|exact Hx].
      * apply (NoDup_fmap_2 _), Hnd.
Qed.

(** C6: on a websocket with no channel to subscribe yet, the default
    subscriptions are the market channel and, for each configured pair and
    each of the topics ticker, depth and trades, the channel named after
    the lower-cased pair without delimiter; no subscription occurs twice.
    When the normalized pairs are distinct there are one plus three times
    as many subscriptions as pairs, and BTC/USD with ETH/USD gives these
    seven. *)
Theorem default_subscription_set z :
  let pairs := GetEnabledPairs z asset.Spot in
  let subscriptions := GenerateDefaultSubscriptions z [] in
  NoDup subscriptions
  /\ (forall s,
        s ∈ subscriptions <->
        s = markets_subscription
        \/ exists topic p,
            topic ∈ ["ticker"; "depth"; "trades"]%string /\ p ∈ pairs
            /\ s = topic_subscription topic (normalized p))
  /\ (NoDup (normalized <$> pairs) ->
      subscriptions
      = markets_subscription
        :: (topic_subscription "ticker" ∘ normalized <$> pairs)
        ++ (topic_subscription "depth" ∘ normalized <$> pairs)
        ++ (topic_subscription "trades" ∘ normalized <$> pairs)
      /\ length subscriptions = (1 + 3 * length pairs)%nat)
  /\ (pairs = [BTC_USD; ETH_USD] ->
      subscriptions
      = [ markets_subscription;
          {| wshandler.Channel := "btcusd_ticker";
             wshandler.Currency := normalized BTC_USD |};
          {| wshandler.Channel := "ethusd_ticker";
             wshandler.Currency := normalized ETH_USD |};
          {| wshandler.Channel := "btcusd_depth";
             wshandler.Currency := normalized BTC_USD |};
          {| wshandler.Channel := "ethusd_depth";
             wshandler.Currency := normalized ETH_USD |};
          {| wshandler.Channel := "btcusd_trades";
             wshandler.Currency := normalized BTC_USD |};
          {| wshandler.Channel := "ethusd_trades";
             wshandler.Currency := normalized ETH_USD |} ]
      /\ length subscriptions = 7%nat).
Proof.
  intros pairs subscriptions. unfold subscriptions, GenerateDefaultSubscriptions.
  destruct (SubscribeToChannels_spec [] (default_subscriptions z) (NoDup_nil_2))
    as [Hnd Hmem].
  split; [exact Hnd|]. split; [|split].
  - intros s. rewrite Hmem, elem_of_nil, default_subscriptions_closed.
    fold pairs. rewrite elem_of_cons, !elem_of_app, !list_elem_of_fmap.
    split.
    + intros [[]|[->|[(p & -> & Hp)|[(p & -> & Hp)|(p & -> & Hp)]]]];
        [left; reflexivity|right..];
        eexists _, p; (split; [|split; [exact Hp|reflexivity]]);
        repeat first [apply list_elem_of_here|apply list_elem_of_further].
    + intros [->|(topic & p & Ht & Hp & ->)]; right; [left; reflexivity|right].
      repeat (apply elem_of_cons in Ht as [->|Ht]);
        [left|right; left|right; right|apply elem_of_nil in Ht; destruct Ht];
        exists p; (split; [reflexivity|exact Hp]).
  - intros Hdistinct.
    pose proof (default_subscriptions_NoDup z Hdistinct) as Hnd'.
    rewrite (SubscribeToChannels_NoDup [] _ Hnd'). simpl app.
    rewrite default_subscriptions_closed. fold pairs.
    split; [reflexivity|].
    simpl. rewrite !length_app, !length_fmap. lia.
  - intros Hpairs. rewrite default_subscriptions_closed. fold pairs.
    rewrite Hpairs. split; vm_compute; reflexivity.
Qed.

End SubscriptionFacts.

(* ===================================================================== *)
(** * The claims on concrete input *)
(* ===================================================================== *)

Import Fixtures.

Example errorf_request_failed_example :
  errorf_request_failed (zb true) "failure" 1001
  = RequestFailed "ZB" "failure" "general error".
Proof. vm_compute. reflexivity. Qed.

Lemma reader_loop_error_policy_witness :
  Forall2 (frame_local_error (zb true))
    [frame_garbage; frame_code_failed; frame_unhandled]
    [Foreign {| origin := "json"; text := "invalid character" |};
     errorf_request_failed (zb true) "failure" 1001;
     UnhandledWebsocketResponse]
  /\ WsHandleData_loop (zb true)
       (ReadMessage_frame <$> [frame_garbage; frame_code_failed; frame_unhandled])
       idle
     = (Reading,
        emit idle
          [TrafficAlert_send;
           DataHandler_send (DH_error
             (Foreign {| origin := "json"; text := "invalid character" |}));
           TrafficAlert_send;
           DataHandler_send (DH_error (errorf_request_failed (zb true) "failure" 1001));
           TrafficAlert_send;
           DataHandler_send (DH_error UnhandledWebsocketResponse)])
  /\ WsHandleData_loop (zb true)
       ((ReadMessage_frame <$> [frame_garbage; frame_code_failed; frame_unhandled])
        ++ ReadMessage_error read_closed :: [ReadMessage_frame frame_markets])
       idle
     = (Returned,
        emit idle
          [TrafficAlert_send;
           DataHandler_send (DH_error
             (Foreign {| origin := "json"; text := "invalid character" |}));
           TrafficAlert_send;
           DataHandler_send (DH_error (errorf_request_failed (zb true) "failure" 1001));
           TrafficAlert_send;
           DataHandler_send (DH_error UnhandledWebsocketResponse);
           ReadMessageErrors_send read_closed]).
Proof.
  assert (Hall : Forall2 (frame_local_error (zb true))
            [frame_garbage; frame_code_failed; frame_unhandled]
            [Foreign {| origin := "json"; text := "invalid character" |};
             errorf_request_failed (zb true) "failure" 1001;
             UnhandledWebsocketResponse]).
  { repeat constructor.
    - apply (ProtocolError (zb true) frame_code_failed
               (generic 1001 0 "failure" "btcusdt_trades" []));
        [vm_compute; reflexivity|simpl; lia..].
    - apply (UnhandledChannel (zb true) frame_unhandled
               (generic 0 0 EmptyString "pong" []));
        [vm_compute; reflexivity|simpl; lia|simpl; lia|].
      repeat split; vm_compute; reflexivity. }
  split; [exact Hall|].
  exact (reader_loop_error_policy (zb true) _ _ read_closed
           [ReadMessage_frame frame_markets] idle Hall).
Defined.

(** C1 as it is worded fails: it is not so that every frame with a failure
    code puts an error on the event stream.  The frame below parses, its
    code is 1001, and because its correlation identifier is 7 it goes to
    [AddResponseWithID]; nothing is sent on [DataHandler]. *)
Lemma failure_code_without_event_error :
  ~ (forall (C : Collaborators) z raw st result,
        json_Unmarshal_Generic (wsFixInvalidJSON raw) = Ok result ->
        Generic.Code result > 0 -> Generic.Code result <> 1000 ->
        exists err,
          DataHandler_send (DH_error err) ∈ sent (snd (handle_frame z raw st))).
Proof.
  intros Hclaim.
  destruct (Hclaim doubles (zb true) frame_reply_failed idle
              (generic 1001 7 "failure" "getaccountinfo" []))
    as [err Hin]; [vm_compute; reflexivity|simpl; lia..|].
  vm_compute in Hin.
  repeat (apply elem_of_cons in Hin as [Hin|Hin]; [discriminate Hin|]).
  apply elem_of_nil in Hin. exact Hin.
Qed.

Lemma correlated_reply_precedence_witness :
  json_Unmarshal_Generic (wsFixInvalidJSON frame_reply_failed)
  = Ok (generic 1001 7 "failure" "getaccountinfo" [])
  /\ Generic.No (generic 1001 7 "failure" "getaccountinfo" []) > 0
  /\ handle_frame (zb true) frame_reply_failed idle
     = (inr Continue,
        emit idle [TrafficAlert_send;
                   AddResponseWithID_call 7 (wsFixInvalidJSON frame_reply_failed)]).
Proof.
  assert (Hparse : json_Unmarshal_Generic (wsFixInvalidJSON frame_reply_failed)
                   = Ok (generic 1001 7 "failure" "getaccountinfo" []))
    by (vm_compute; reflexivity).
  assert (Hno : Generic.No (generic 1001 7 "failure" "getaccountinfo" []) > 0)
    by (simpl; lia).
  split; [exact Hparse|]. split; [exact Hno|].
  exact (proj1 (correlated_reply_precedence (zb true) frame_reply_failed _
                  [] idle Hparse Hno)).
Defined.

Lemma trade_batch_emits_last_witness :
  exists instrument,
    head (strings_Split "btcusdt_trades" "_") = Some instrument
    /\ handle_frame (zb true) frame_trades3 idle
       = (inl tt,
          emit idle
            [TrafficAlert_send;
             DataHandler_send (DH_TradeData
               {| wshandler.Timestamp := time.Unix 3 0;
                  wshandler.CurrencyPair := currency_NewPairFromString instrument;
                  wshandler.AssetType := asset.Spot;
                  wshandler.Exchange := "ZB";
                  wshandler.Price := 6999.5%float;
                  wshandler.Amount := 2%float;
                  wshandler.Side := "bid" |})]).
Proof.
  apply (trade_batch_emits_last (zb true) frame_trades3
           (generic 0 0 EmptyString "btcusdt_trades" [])
           {| WsTrades.Data := [trade1; trade2; trade3] |}
           [trade1; trade2] trade3 idle).
  - vm_compute. reflexivity.
  - simpl. lia.
  - vm_compute. reflexivity.
  - repeat split; vm_compute; reflexivity.
  - vm_compute. reflexivity.
  - reflexivity.
Defined.

(** C7 on a depth frame whose only ask carries its price and its amount as
    strings: the reader loop panics at the type assertion on the amount.
    Nothing is put on [DataHandler], and the frame after it is not read. *)
Theorem depth_strings_panic :
  json_Unmarshal_WsDepth (wsFixInvalidJSON frame_depth_strings)
  = Ok {| WsDepth.Asks := [[Istring "7001.5"; Istring "0.2"]];
          WsDepth.Bids := [] |}
  /\ WsHandleData_loop (zb true)
       [ReadMessage_frame frame_depth_strings; ReadMessage_frame frame_garbage]
       idle
     = (Panicked (InterfaceConversion (Istring "0.2")),
        emit idle [TrafficAlert_send]).
Proof. split; [vm_compute; reflexivity|reflexivity]. Qed.

Lemma success_code_never_an_error_witness :
  (1000 = 1000 \/ 1000 = 0)
  /\ exists events,
       sent (snd (handle_frame (zb true) frame_markets idle))
       = sent idle ++ events
       /\ forall name message code_text,
           DataHandler_send (DH_error (RequestFailed name message code_text))
           ∉ events.
Proof.
  split; [left; reflexivity|].
  apply (proj1 (success_code_never_an_error 1000 (or_introl eq_refl))
           (zb true) frame_markets idle
           (generic 1000 0 EmptyString "markets" (bytes_of "{}")));
    vm_compute; reflexivity.
Defined.

Lemma not_authenticated_rejected_witness :
  GetAuthenticatedAPISupport (zb false) WebsocketAuthentication = false
  /\ run (perform (zb false) (SubmitOrder (instrument "btc" "usdt")
                                1.5%float 7000%float 1))
         (world [Ok reply_ok])
     = ((None, Some (AuthenticatedWebsocketAPISupportNotEnabled "ZB")),
        world [Ok reply_ok]).
Proof.
  split; [reflexivity|].
  apply (not_authenticated_rejected (zb false)). reflexivity.
Defined.

Lemma wsGenerateSignature_deterministic_witness :
  API_Credentials_Secret (zb true) = API_Credentials_Secret (zb false)
  /\ exists digest : string,
       fst (wsGenerateSignature (E:=Reply) (zb true)
              {| Request.Body := WsAuthenticatedRequest;
                 Request.Channel := "getaccountinfo";
                 Request.Event := zWebsocketAddChannel;
                 Request.Accesskey := "key"; Request.No := 1;
                 Request.Sign := EmptyString |}
              (world [])) = inl digest
       /\ fst (wsGenerateSignature (E:=Reply) (zb false)
                 {| Request.Body := WsAuthenticatedRequest;
                    Request.Channel := "getaccountinfo";
                    Request.Event := zWebsocketAddChannel;
                    Request.Accesskey := "key"; Request.No := 1;
                    Request.Sign := EmptyString |}
                 (world [Ok reply_ok; Ok reply_failed])) = inl digest.
Proof.
  split; [reflexivity|].
  apply (wsGenerateSignature_deterministic (zb true) (zb false)). reflexivity.
Defined.

Lemma default_subscription_set_witness :
  GetEnabledPairs (zb true) asset.Spot = [BTC_USD; ETH_USD]
  /\ NoDup (GenerateDefaultSubscriptions (zb true) [])
  /\ length (GenerateDefaultSubscriptions (zb true) []) = 7%nat.
Proof.
  destruct (default_subscription_set (zb true)) as (Hnd & _ & _ & Hseven).
  split; [reflexivity|]. split; [exact Hnd|].
  exact (proj2 (Hseven eq_refl)).
Defined.

(* ===================================================================== *)
(** * More of the reader loop *)
(* ===================================================================== *)

Section ReaderLoopMore.
Context `{Collaborators}.

Ltac frame_done :=
  eexists; split; [simpl; rewrite <- ?app_assoc; reflexivity|];
  split; [simpl; lia|repeat constructor].

Ltac state_unchanged :=
  match goal with
  | |- context [append_items ?e ?i ?s] =>
      let Hs := fresh "Hs" in
      let st1 := fresh "st" in
      pose proof (append_items_state e i s) as Hs;
      destruct (append_items e i s) as [[?|[|?]] st1];
      simpl in Hs; subst st1
  end.

(** The cases of the body of the loop, with [leaf] run where the
    statements of a frame end. *)
Ltac frame_cases leaf :=
  unfold handle_frame; unfold_statements;
  destruct (json_Unmarshal_Generic _); [|leaf];
  destruct (bool_decide (Generic.No _ > 0)); [leaf|];
  destruct (request_failed _); [leaf|];
  destruct (strings_Contains _ "markets");
    [destruct (json_Unmarshal_Markets _); leaf|];
  destruct (strings_Contains _ "ticker");
    [destruct (json_Unmarshal_WsTicker _);
       [destruct (strings_Split _ _ !! 0%nat)|]; leaf|];
  destruct (strings_Contains _ "depth");
    [destruct (json_Unmarshal_WsDepth _); [|leaf];
     state_unchanged; try leaf;
     state_unchanged; try leaf;
     destruct (strings_Split _ _ !! 0%nat); [|leaf];
     simpl; destruct (Orderbook_LoadSnapshot _ _) as [? [?|]]; leaf|];
  destruct (strings_Contains _ "trades");
    [destruct (json_Unmarshal_WsTrades _); [|leaf];
     destruct (bool_decide _); [leaf|];
     destruct (WsTrades.Data _ !! _); [|leaf];
     destruct (strings_Split _ _ !! 0%nat); leaf|];
  leaf.

Ltac no_wait_group :=
  eexists; split; [simpl; rewrite <- ?app_assoc; reflexivity|];
  simpl; repeat (constructor; [simpl; tauto|]); constructor.

(** A frame never touches the wait group. *)
Lemma handle_frame_no_wait_group z raw st :
  exists events,
    sent (snd (handle_frame z raw st)) = sent st ++ events
    /\ Forall (fun e => ~ wait_group_event e) events.
Proof. frame_cases no_wait_group. Qed.

(** X1: whatever a frame holds, the loop signals traffic first and then
    causes at most one more event, a value on [DataHandler] or a reply
    handed to [AddResponseWithID]. *)
Theorem frame_alert_then_at_most_one z raw st :
  exists rest,
    sent (snd (handle_frame z raw st)) = sent st ++ TrafficAlert_send :: rest
    /\ (length rest <= 1)%nat /\ Forall frame_event rest.
Proof. frame_cases frame_done. Qed.

Lemma frame_event_not_wait_group e : frame_event e -> ~ wait_group_event e.
Proof. destruct e; simpl; tauto. Qed.

Lemma WsHandleData_loop_events z incoming st :
  exists events,
    sent (snd (WsHandleData_loop z incoming st)) = sent st ++ events
    /\ Forall (fun e => ~ wait_group_event e) events.
Proof.
  revert st. induction incoming as [|[|err|raw] incoming IH]; intros st.
  - exists []. simpl. rewrite app_nil_r. split; [reflexivity|constructor].
  - exists []. simpl. rewrite app_nil_r. split; [reflexivity|constructor].
  - eexists. simpl. split; [reflexivity|]. repeat constructor. simpl. tauto.
  - rewrite WsHandleData_loop_frame.
    destruct (handle_frame_no_wait_group z raw st) as (first & Hsent & Hframe).
    destruct (handle_frame z raw st) as [[[]|[|p]] st1]; simpl in Hsent.
    + destruct (IH st1) as (events & Hev & Hall).
      exists (first ++ events). rewrite Hev, Hsent, <- app_assoc.
      split; [reflexivity|]. apply Forall_app. split; assumption.
    + destruct (IH st1) as (events & Hev & Hall).
      exists (first ++ events). rewrite Hev, Hsent, <- app_assoc.
      split; [reflexivity|]. apply Forall_app. split; assumption.
    + exists first. simpl. split; assumption.
Qed.

(** X2: [WsHandleData] adds itself to the wait group once, before anything
    else, and the deferred [Done] is its last event exactly when the
    goroutine has ended, by a return as by a panic; while it is still
    reading there is no [Done].  Nothing in between touches the wait
    group. *)
Theorem wait_group_balance z incoming st :
  exists events,
    Forall (fun e => ~ wait_group_event e) events
    /\ sent (snd (WsHandleData z incoming st))
       = sent st ++ Wg_Add :: events
         ++ match fst (WsHandleData z incoming st) with
            | Reading => []
            | _ => [Wg_Done]
            end.
Proof.
  unfold WsHandleData. unfold_statements. simpl.
  destruct (WsHandleData_loop_events z incoming
              {| book := book st; sent := sent st ++ [Wg_Add] |})
    as (events & Hev & Hall).
  exists events. split; [exact Hall|].
  destruct (WsHandleData_loop z incoming _) as [[| |p] st1];
    simpl in *; rewrite Hev, <- ?app_assoc; simpl;
    rewrite ?app_nil_r; reflexivity.
Qed.


(** X4: a frame of the trades branch whose batch is empty is dropped: after
    the traffic alert nothing is sent, and the loop goes to the next
    frame. *)
Theorem empty_trade_batch_dropped z raw result trades rest st :
  json_Unmarshal_Generic (wsFixInvalidJSON raw) = Ok result ->
  Generic.No result <= 0 ->
  request_failed (Generic.Code result) = false ->
  trades_channel (Generic.Channel result) ->
  json_Unmarshal_WsTrades (wsFixInvalidJSON raw) = Ok trades ->
  WsTrades.Data trades = [] ->
  handle_frame z raw st = (inr Continue, emit st [TrafficAlert_send])
  /\ WsHandleData_loop z (ReadMessage_frame raw :: rest) st
     = WsHandleData_loop z rest (emit st [TrafficAlert_send]).
Proof.
  intros Hparse Hno Hcode (Hm & Ht & Hd & Htr) Htrades Hdata.
  assert (Hframe : handle_frame z raw st
                   = (inr Continue, emit st [TrafficAlert_send])).
  { unfold handle_frame, emit. unfold_statements.
    rewrite Hparse, No_not_positive, Hcode by assumption.
    rewrite Hm, Ht, Hd, Htr, Htrades, Hdata. reflexivity. }
  split; [exact Hframe|].
  rewrite WsHandleData_loop_frame, Hframe. reflexivity.
Qed.

Lemma int64_mul_Millisecond date :
  -9223372036854 <= date <= 9223372036854 ->
  int64_mul date time.Millisecond = date * 1000000.
Proof.
  intros Hrange. unfold int64_mul, wrap64, time.Millisecond.
  rewrite Z.mod_small by lia. lia.
Qed.

(** X5: a frame of the ticker branch puts one [ticker.Price] on
    [DataHandler]: last price in both [Last] and [Close], buy as bid, sell
    as ask, the 24 hour volume, high and low, the pair named by the channel
    up to its first underscore, and, for a date of at most 9223372036854
    milliseconds in absolute value, that date in nanoseconds with no
    wrap-around. *)
Theorem ticker_frame_mapping z raw result wsTicker st :
  json_Unmarshal_Generic (wsFixInvalidJSON raw) = Ok result ->
  Generic.No result <= 0 ->
  request_failed (Generic.Code result) = false ->
  ticker_channel (Generic.Channel result) ->
  json_Unmarshal_WsTicker (wsFixInvalidJSON raw) = Ok wsTicker ->
  -9223372036854 <= WsTicker.Date wsTicker <= 9223372036854 ->
  exists instrument,
    head (strings_Split (Generic.Channel result) "_") = Some instrument
    /\ handle_frame z raw st
       = (inl tt,
          emit st
            [TrafficAlert_send;
             DataHandler_send (DH_ticker_Price
               {| ticker.ExchangeName := Name z;
                  ticker.Close := WsTicker.Last (WsTicker.Data wsTicker);
                  ticker.Volume := WsTicker.Volume24Hr (WsTicker.Data wsTicker);
                  ticker.High := WsTicker.High (WsTicker.Data wsTicker);
                  ticker.Low := WsTicker.Low (WsTicker.Data wsTicker);
                  ticker.Last := WsTicker.Last (WsTicker.Data wsTicker);
                  ticker.Bid := WsTicker.Buy (WsTicker.Data wsTicker);
                  ticker.Ask := WsTicker.Sell (WsTicker.Data wsTicker);
                  ticker.LastUpdated :=
                    time.Unix 0 (WsTicker.Date wsTicker * 1000000);
                  ticker.AssetType := asset.Spot;
                  ticker.Pair := currency_NewPairFromString instrument |})]).
Proof.
  intros Hparse Hno Hcode (Hm & Ht) Hticker Hdate.
  destruct (strings_Split_head (Generic.Channel result) "_") as [instrument Hi].
  exists instrument. split; [exact Hi|].
  unfold handle_frame, emit. unfold_statements.
  rewrite Hparse, No_not_positive, Hcode by assumption.
  rewrite Hm, Ht, Hticker, lookup_0_head, Hi.
  rewrite (int64_mul_Millisecond _ Hdate).
  simpl. rewrite <- app_assoc. reflexivity.
Qed.

(** X6: the market channel goes first in the [switch].  A frame whose
    channel contains "markets", whatever else the channel contains, has
    its [Data] decoded and forwards nothing: after the traffic alert there
    is only the decoding error, if there is one. *)
Theorem markets_frame_forwards_nothing z raw result st :
  json_Unmarshal_Generic (wsFixInvalidJSON raw) = Ok result ->
  Generic.No result <= 0 ->
  request_failed (Generic.Code result) = false ->
  strings_Contains (Generic.Channel result) "markets" = true ->
  handle_frame z raw st
  = match json_Unmarshal_Markets (Generic.Data result) with
    | Ok _ => (inl tt, emit st [TrafficAlert_send])
    | Err err =>
        (inr Continue,
         emit st [TrafficAlert_send; DataHandler_send (DH_error (Foreign err))])
    end.
Proof.
  intros Hparse Hno Hcode Hm.
  unfold handle_frame, emit. unfold_statements.
  rewrite Hparse, No_not_positive, Hcode, Hm by assumption.
  destruct (json_Unmarshal_Markets _); simpl; rewrite <- ?app_assoc; reflexivity.
Qed.

Lemma entry_panic_None entry :
  entry_panic entry = None <-> well_formed_entry entry.
Proof.
  split.
  - destruct entry as [|p [|a more]]; try discriminate.
    destruct a, p; try discriminate. intros _. eexists _, _, _. reflexivity.
  - intros (p & a & more & ->). reflexivity.
Qed.

Lemma append_items_well_formed entries items st :
  Forall well_formed_entry entries ->
  append_items entries items st = (inl (items ++ items_of_entries entries), st).
Proof.
  intros Hall. revert items.
  induction Hall as [|entry entries (p & a & more & ->) _ IH]; intros items.
  - simpl. rewrite app_nil_r. reflexivity.
  - simpl. unfold_statements. simpl. rewrite IH, <- app_assoc. reflexivity.
Qed.

Lemma append_items_entry_panic good bad pn others items st :
  Forall well_formed_entry good ->
  entry_panic bad = Some pn ->
  append_items (good ++ bad :: others) items st = (inr (Panic pn), st).
Proof.
  intros Hgood Hbad. revert items.
  induction Hgood as [|entry good (p & a & more & ->) _ IH]; intros items.
  - simpl. unfold_statements.
    destruct bad as [|p [|a more]]; simpl in *.
    + injection Hbad as <-. reflexivity.
    + injection Hbad as <-. reflexivity.
    + destruct a; try (injection Hbad as <-; reflexivity).
      destruct p; try discriminate Hbad; injection Hbad as <-; reflexivity.
  - simpl. unfold_statements. simpl. apply IH.
Qed.

(** X7: the conversion of the asks or bids of a depth frame either takes
    every entry, giving one item per entry in the same order with the
    first element as price and the second as amount, or panics at the
    first entry that is too short or holds something else than a number,
    checking the amount before the price.  It sends nothing either way. *)
Theorem append_items_outcome entries items st :
  (Forall well_formed_entry entries
   /\ append_items entries items st
      = (inl (items ++ items_of_entries entries), st)
   /\ length (items_of_entries entries) = length entries)
  \/ (exists good bad others pn,
        entries = good ++ bad :: others
        /\ Forall well_formed_entry good
        /\ entry_panic bad = Some pn
        /\ append_items entries items st = (inr (Panic pn), st)).
Proof.
  assert (Hsplit : Forall well_formed_entry entries
                   \/ exists good bad others pn,
                        entries = good ++ bad :: others
                        /\ Forall well_formed_entry good
                        /\ entry_panic bad = Some pn).
  { induction entries as [|entry entries IH]; [left; constructor|].
    destruct (entry_panic entry) as [pn|] eqn:Hentry.
    - right. exists [], entry, entries, pn. repeat split; [constructor|exact Hentry].
    - apply entry_panic_None in Hentry.
      destruct IH as [Hall|(good & bad & others & pn & -> & Hgood & Hbad)].
      + left. constructor; assumption.
      + right. exists (entry :: good), bad, others, pn.
        repeat split; [constructor; assumption|exact Hbad]. }
  destruct Hsplit as [Hall|(good & bad & others & pn & -> & Hgood & Hbad)].
  - left. split; [exact Hall|]. split; [apply append_items_well_formed, Hall|].
    clear items st. induction Hall as [|entry entries (p & a & more & ->) _ IH];
      [reflexivity|]. simpl. f_equal. exact IH.
  - right. exists good, bad, others, pn. repeat split; try assumption.
    apply append_items_entry_panic; assumption.
Qed.

(** X8: a depth frame whose asks and bids are all well-formed loads one
    snapshot into the orderbook buffer, with the converted asks and bids,
    the spot asset and the pair named by the channel up to its first
    underscore.  If the buffer accepts it, one orderbook update for that
    pair is put on [DataHandler]; if it refuses, its error is put there
    instead; the buffer is left as [LoadSnapshot] returned it. *)
Theorem depth_frame_snapshot z raw result depth st :
  json_Unmarshal_Generic (wsFixInvalidJSON raw) = Ok result ->
  Generic.No result <= 0 ->
  request_failed (Generic.Code result) = false ->
  depth_channel (Generic.Channel result) ->
  json_Unmarshal_WsDepth (wsFixInvalidJSON raw) = Ok depth ->
  Forall well_formed_entry (WsDepth.Asks depth) ->
  Forall well_formed_entry (WsDepth.Bids depth) ->
  exists instrument,
    head (strings_Split (Generic.Channel result) "_") = Some instrument
    /\ let cPair := currency_NewPairFromString instrument in
       let newOrderBook :=
         {| orderbook.Asks := items_of_entries (WsDepth.Asks depth);
            orderbook.Bids := items_of_entries (WsDepth.Bids depth);
            orderbook.AssetType := asset.Spot;
            orderbook.Pair := cPair;
            orderbook.ExchangeName := Name z |} in
       handle_frame z raw st
       = match Orderbook_LoadSnapshot (book st) newOrderBook with
         | (book', None) =>
             (inl tt,
              {| book := book';
                 sent := sent st ++
                   [TrafficAlert_send;
                    DataHandler_send (DH_WebsocketOrderbookUpdate
                      {| wshandler.ou_Pair := cPair;
                         wshandler.ou_Asset := asset.Spot;
                         wshandler.ou_Exchange := Name z |})] |})
         | (book', Some err) =>
             (inr Continue,
              {| book := book';
                 sent := sent st ++
                   [TrafficAlert_send; DataHandler_send (DH_error (Foreign err))] |})
         end.
Proof.
  intros Hparse Hno Hcode (Hm & Ht & Hd) Hdepth Hasks Hbids.
  destruct (strings_Split_head (Generic.Channel result) "_") as [instrument Hi].
  exists instrument. split; [exact Hi|]. cbv zeta.
  unfold handle_frame. unfold_statements.
  rewrite Hparse, No_not_positive, Hcode by assumption.
  rewrite Hm, Ht, Hd, Hdepth.
  rewrite (append_items_well_formed _ [] _ Hasks).
  rewrite (append_items_well_formed _ [] _ Hbids).
  rewrite lookup_0_head, Hi. simpl.
  destruct (Orderbook_LoadSnapshot _ _) as [book' [err|]];
    simpl; rewrite <- app_assoc; reflexivity.
Qed.

End ReaderLoopMore.

(* ===================================================================== *)
(** * More of the authenticated operations *)
(* ===================================================================== *)

Section AuthenticatedMore.
Context `{Collaborators}.

(** X9: with authenticated support enabled every operation draws one
    message identifier, signs once and sends once, in this order.  The
    command it sends carries that identifier, the event [addChannel] and
    the access key, and its signature is the digest of the same command
    with an empty signature; [SendMessageReturnResponse] waits under the
    identifier the command carries.  When the command cannot be
    serialized the error is logged and the command is sent all the same,
    with an empty signature. *)
Theorem operation_sends_one_signed_request z o w :
  GetAuthenticatedAPISupport z WebsocketAuthentication = true ->
  let id := fst (GenerateMessageID (conn w) true) in
  let unsigned := unsigned_request z o id in
  let signed := Request.set_Sign (signature z unsigned) unsigned in
  let w' := snd (run (perform z o) w) in
  (Request.No signed = id /\ Request.Event signed = zWebsocketAddChannel
   /\ Request.Accesskey signed = API_Credentials_Key z)
  /\ (forall err, json_Marshal unsigned = Err err ->
                  Request.Sign signed = EmptyString)
  /\ conn w'
     = snd (SendMessageReturnResponse (snd (GenerateMessageID (conn w) true))
              id signed)
  /\ calls w'
     = calls w
       ++ [Called_GenerateMessageID true id; Called_wsGenerateSignature unsigned]
       ++ match json_Marshal unsigned with
          | Err err => [Called_log_Error err]
          | Ok _ => []
          end
       ++ [Called_SendMessageReturnResponse id signed].
Proof.
  intros Hon id unsigned signed w'.
  split; [destruct o; repeat split; reflexivity|].
  split.
  { intros err Herr. unfold signed, signature. simpl. rewrite Herr.
    reflexivity. }
  subst w' signed unsigned id.
  destruct o; unfold_operation; cbv [unsigned_request signature];
    rewrite Hon; simpl;
    destruct (GenerateMessageID (conn w) true) as [id conn1]; simpl;
    repeat step_call;
    rewrite <- ?app_assoc; split; reflexivity.
Qed.



End AuthenticatedMore.

(* ===================================================================== *)
(** * More of the JSON repair *)
(* ===================================================================== *)

Section RepairMore.
Import regexp.

Local Abbreviation shorter := (fun a b : bytes => (length a < length b)%nat).

Lemma StronglySorted_snoc (l : list bytes) (s : bytes) :
  StronglySorted shorter l ->
  Forall (fun x => (length x < length s)%nat) l ->
  StronglySorted shorter (l ++ [s]).
Proof.
  induction 1 as [|a l Hl IH Ha]; intros Hs; simpl.
  - repeat constructor.
  - apply Forall_cons in Hs as [Has Hs]. constructor; [apply IH, Hs|].
    apply Forall_app. split; [exact Ha|]. repeat constructor. exact Has.
Qed.

(** The greedy dot-star tries the longest run first: what it leaves is
    listed from the shortest remainder to the longest. *)
Lemma star_dots_sorted fuel s :
  StronglySorted shorter (star_rem (remainders AnyCharNotNL) fuel s)
  /\ Forall (fun x => (length x <= length s)%nat)
            (star_rem (remainders AnyCharNotNL) fuel s).
Proof.
  revert s. induction fuel as [|fuel IH]; intros s.
  - simpl. split; repeat constructor.
  - change (star_rem (remainders AnyCharNotNL) (S fuel) s)
      with ((remainders AnyCharNotNL s ≫= fun t =>
               if decide (length t < length s)%nat
               then star_rem (remainders AnyCharNotNL) fuel t else [])
            ++ [s]).
    destruct s as [|c t]; [simpl; split; repeat constructor|].
    simpl remainders. destruct (decide (c = newline));
      [simpl; split; repeat constructor|].
    simpl mbind. rewrite decide_True by (simpl; lia). rewrite app_nil_r.
    destruct (IH t) as [Hsorted Hle]. split.
    + apply StronglySorted_snoc; [exact Hsorted|].
      eapply Forall_impl; [exact Hle|]. simpl. intros; lia.
    + apply Forall_app. split.
      * eapply Forall_impl; [exact Hle|]. simpl. intros; lia.
      * repeat constructor.
Qed.

Lemma bind_sorted (g : bytes -> list bytes) (l : list bytes) :
  (forall u, g u = [] \/ exists u', g u = [u']
                                   /\ (length u' + 2 = length u)%nat) ->
  StronglySorted shorter l ->
  StronglySorted shorter (l ≫= g).
Proof.
  intros Hg. induction 1 as [|a l Hl IH Ha]; [constructor|].
  change ((a :: l) ≫= g) with (g a ++ (l ≫= g)).
  destruct (Hg a) as [->|(a' & -> & Hlen)]; [exact IH|].
  simpl. constructor; [exact IH|].
  apply Forall_forall. intros y' Hy'.
  apply list_elem_of_bind in Hy' as (y & Hy' & Hy).
  destruct (Hg y) as [Hnil|(y'' & Hone & Hlen')].
  - rewrite Hnil in Hy'. apply elem_of_nil in Hy'. destruct Hy'.
  - rewrite Hone in Hy'. apply list_elem_of_singleton in Hy' as ->.
    rewrite Forall_forall in Ha. specialize (Ha y Hy). lia.
Qed.

Lemma two_literals_one a b c d (s : bytes) :
  b <> d ->
  let r := Alternate (Concat (Literal a) (Literal b))
                     (Concat (Literal c) (Literal d)) in
  remainders r s = []
  \/ exists s', remainders r s = [s'] /\ (length s' + 2 = length s)%nat.
Proof.
  intros Hne r. subst r.
  destruct s as [|c1 [|c2 t]]; simpl.
  - left; reflexivity.
  - left. repeat (case_decide; simpl); reflexivity.
  - repeat (case_decide; subst; simpl); try congruence;
      solve [left; reflexivity|right; eexists; split; [reflexivity|simpl; lia]].
Qed.

Lemma head_shortest (l : list bytes) x :
  StronglySorted shorter l -> head l = Some x ->
  forall y, y ∈ l -> (length x <= length y)%nat.
Proof.
  intros Hsorted Hhead y Hy. destruct l as [|a l]; [discriminate|].
  injection Hhead as ->. inversion Hsorted as [|? ? _ Hall]; subst.
  apply elem_of_cons in Hy as [->|Hy]; [lia|].
  rewrite Forall_forall in Hall. specialize (Hall y Hy). simpl in Hall. lia.
Qed.

Lemma remainders_invalidZbJSONRegex_sorted s :
  StronglySorted shorter (remainders invalidZbJSONRegex s).
Proof.
  set (opening := Alternate (Concat (Literal quote) (Literal lbrack))
                            (Concat (Literal quote) (Literal lbrace))).
  set (closing := Alternate (Concat (Literal rbrack) (Literal quote))
                            (Concat (Literal rbrace) (Literal quote))).
  change (remainders invalidZbJSONRegex s)
    with (remainders opening s ≫= fun t =>
            star_rem (remainders AnyCharNotNL) (length t) t
            ≫= remainders closing).
  assert (Hclose : forall u,
             remainders closing u = []
             \/ exists u', remainders closing u = [u']
                           /\ (length u' + 2 = length u)%nat).
  { intros u. destruct u as [|c1 [|c2 t]]; simpl.
    - left; reflexivity.
    - left. repeat (case_decide; simpl); reflexivity.
    - repeat (case_decide; subst; simpl); try discriminate;
        solve [left; reflexivity|right; eexists; split; [reflexivity|simpl; lia]]. }
  pose proof (two_literals_one quote lbrack quote lbrace s ltac:(discriminate))
    as Hopen.
  cbv zeta in Hopen. fold opening in Hopen.
  destruct Hopen as [Hnil|(t & Hone & _)].
  - rewrite Hnil. constructor.
  - rewrite Hone. change ([t] ≫= ?f) with (f t ++ []).
    rewrite app_nil_r. apply bind_sorted; [exact Hclose|apply star_dots_sorted].
Qed.

Lemma find_at_head r pos s i j :
  find_at r pos s = Some (i, j) ->
  exists pre m post,
    s = pre ++ m ++ post /\ i = (pos + length pre)%nat
    /\ j = (i + length m)%nat
    /\ head (remainders r (m ++ post)) = Some post.
Proof.
  revert pos. induction s as [|c s IH]; intros pos;
    rewrite regexp_facts.find_at_eq.
  - destruct (head (remainders r [])) as [rest|] eqn:E; [|discriminate].
    intros [= <- <-]. pose proof E as E'.
    apply regexp_facts.head_remainders in E' as (m & Hs & Hm & Hlen).
    exists [], m, rest. rewrite <- Hs. simpl in *.
    repeat split; solve [assumption|lia|reflexivity].
  - destruct (head (remainders r (c :: s))) as [rest|] eqn:E.
    + intros [= <- <-]. pose proof E as E'.
      apply regexp_facts.head_remainders in E' as (m & Hs & Hm & Hlen).
      exists [], m, rest. rewrite <- Hs. simpl in *.
      repeat split; solve [assumption|lia|reflexivity].
    + intros Hf. apply IH in Hf as (pre & m & post & -> & -> & -> & Hhead).
      exists (c :: pre), m, post. simpl.
      repeat split; [lia|assumption].
Qed.

(** X15: the span [wsFixInvalidJSON] works on is the longest one that
    matches at the place where it starts: with several closing brackets
    followed by a quotation character on the line, it is the last of them
    whose quotation character goes. *)
Theorem repair_takes_longest_match json m :
  Find invalidZbJSONRegex json = Some m ->
  exists pre post,
    json = pre ++ m ++ post
    /\ forall m' post',
        m ++ post = m' ++ post' -> Matches invalidZbJSONRegex m' ->
        (length m' <= length m)%nat.
Proof.
  unfold Find, FindIndex.
  destruct (find_at invalidZbJSONRegex 0 json) as [[i j]|] eqn:E; [|discriminate].
  apply find_at_head in E as (pre & m0 & post & Hj & -> & -> & Hhead).
  intros [= <-]. exists pre, post. simpl.
  replace (length pre + length m0 - length pre)%nat with (length m0) by lia.
  rewrite Hj, drop_app_length, take_app_length.
  split; [reflexivity|]. intros m' post' Heq Hm'.
  pose proof (regexp_facts.remainders_complete _ _ Hm' post') as Hin.
  rewrite <- Heq in Hin.
  pose proof (head_shortest _ _ (remainders_invalidZbJSONRegex_sorted _)
                Hhead _ Hin) as Hle.
  apply (f_equal length) in Heq. rewrite !length_app in Heq. lia.
Qed.

Lemma wsFixInvalidJSON_matched json m :
  Find invalidZbJSONRegex json = Some m ->
  exists pre body post,
    json = pre ++ (quote :: body ++ [quote]) ++ post
    /\ wsFixInvalidJSON json = pre ++ body ++ post.
Proof.
  intros Hfind. pose proof Hfind as Hspec.
  apply regexp_facts.Find_Some in Hspec as (pre & post & Hj & Hm & Hleft).
  pose proof Hm as Hshape.
  apply Matches_invalidZbJSONRegex in Hshape as (o & mid & c & -> & _).
  exists pre, (o :: mid ++ [c]), post.
  assert (Hm_eq : quote :: o :: mid ++ [c; quote]
                  = quote :: (o :: mid ++ [c]) ++ [quote])
    by (simpl; rewrite <- app_assoc; reflexivity).
  rewrite Hm_eq in *. clear Hm_eq. split; [assumption|].
  unfold wsFixInvalidJSON. rewrite Hfind. cbv zeta.
  rewrite strings_Replace_head.
  rewrite (take_app_length' (o :: mid ++ [c]) [quote])
    by (rewrite length_app; simpl; lia).
  rewrite Hj at 1. apply strings_Replace_first; [discriminate|].
  intros pre' post' Heq. rewrite <- Hj in Heq. eapply Hleft; eassumption.
Qed.

(** X16: the repair only ever deletes quotation characters.  With the
    quotation characters taken out, a frame and its repair are the same
    bytes, and the repair is two bytes shorter than the frame when the
    defect occurs and as long as the frame when it does not. *)
Theorem repair_only_deletes_quotes json :
  filter (fun b => b <> quote) (wsFixInvalidJSON json)
  = filter (fun b => b <> quote) json
  /\ (DefectOccurs json -> (length (wsFixInvalidJSON json) + 2 = length json)%nat)
  /\ (~ DefectOccurs json -> length (wsFixInvalidJSON json) = length json).
Proof.
  destruct (Find invalidZbJSONRegex json) as [m|] eqn:Hfind.
  - destruct (wsFixInvalidJSON_matched json m Hfind)
      as (pre & body & post & Hj & Hfix).
    rewrite Hfix. split; [|split].
    + rewrite Hj. rewrite !filter_app, filter_cons_False by tauto.
      rewrite filter_app, (filter_cons_False _ quote []) by tauto.
      rewrite filter_nil, app_nil_r. reflexivity.
    + intros _. rewrite Hj, !length_app. simpl. rewrite !length_app. simpl. lia.
    + intros Hno. destruct Hno. apply Find_DefectOccurs. eauto.
  - assert (Hid : wsFixInvalidJSON json = json)
      by (unfold wsFixInvalidJSON; rewrite Hfind; reflexivity).
    rewrite Hid. split; [reflexivity|]. split; [|reflexivity].
    intros Hd. apply Find_DefectOccurs in Hd as [m Hm]. congruence.
Qed.

End RepairMore.

(* ===================================================================== *)
(** * More of signing, subscribing and connecting *)
(* ===================================================================== *)

Lemma hex_digit_code n :
  (n < 16)%N ->
  N_of_ascii (hex_digit n) = if (n <? 10)%N then (48 + n)%N else (87 + n)%N.
Proof.
  intros Hn. unfold hex_digit.
  destruct (n <? 10)%N; apply N_ascii_embedding; lia.
Qed.

Lemma hex_digit_is_hex n : (n < 16)%N -> is_hex_digit (hex_digit n).
Proof.
  intros Hn. unfold is_hex_digit. cbv zeta. rewrite (hex_digit_code n Hn).
  destruct (n <? 10)%N eqn:E;
    [apply N.ltb_lt in E|apply N.ltb_ge in E]; lia.
Qed.

Lemma hex_digit_inj n1 n2 :
  (n1 < 16)%N -> (n2 < 16)%N -> hex_digit n1 = hex_digit n2 -> n1 = n2.
Proof.
  intros H1 H2 Heq. apply (f_equal N_of_ascii) in Heq.
  rewrite !hex_digit_code in Heq by assumption.
  destruct (n1 <? 10)%N eqn:E1, (n2 <? 10)%N eqn:E2;
    repeat match goal with
           | E : (_ <? _)%N = true |- _ => apply N.ltb_lt in E
           | E : (_ <? _)%N = false |- _ => apply N.ltb_ge in E
           end; lia.
Qed.

Lemma byte_nibbles (c : byte) :
  (Byte.to_N c / 16 < 16)%N /\ (Byte.to_N c mod 16 < 16)%N.
Proof.
  pose proof (Byte.to_N_bounded c) as Hb. split.
  - apply N.Div0.div_lt_upper_bound. lia.
  - apply N.mod_lt. lia.
Qed.

Lemma Sprintf_x_length b : String.length (Sprintf_x b) = (2 * length b)%nat.
Proof. induction b as [|c b IH]; simpl; [reflexivity|]. rewrite IH. lia. Qed.

Lemma Sprintf_x_hex b : string_Forall is_hex_digit (Sprintf_x b).
Proof.
  induction b as [|c b IH]; simpl; [exact I|].
  destruct (byte_nibbles c) as [Hhi Hlo].
  repeat split; [apply hex_digit_is_hex, Hhi|apply hex_digit_is_hex, Hlo|exact IH].
Qed.

Lemma Sprintf_x_inj b1 b2 : Sprintf_x b1 = Sprintf_x b2 -> b1 = b2.
Proof.
  revert b2. induction b1 as [|c1 b1 IH]; intros [|c2 b2] Heq; simpl in Heq;
    try discriminate; [reflexivity|].
  injection Heq as Hhi Hlo Hrest.
  destruct (byte_nibbles c1) as [H1 H1'], (byte_nibbles c2) as [H2 H2'].
  apply hex_digit_inj in Hhi; [|assumption..].
  apply hex_digit_inj in Hlo; [|assumption..].
  assert (Hc : Byte.to_N c1 = Byte.to_N c2).
  { rewrite (N.div_mod (Byte.to_N c1) 16), (N.div_mod (Byte.to_N c2) 16) by lia.
    rewrite Hhi, Hlo. reflexivity. }
  assert (Some c1 = Some c2) as [= ->]
    by (rewrite <- (Byte.of_to_N c1), <- (Byte.of_to_N c2), Hc; reflexivity).
  f_equal. apply IH, Hrest.
Qed.

Section SigningMore.
Context `{Collaborators}.

Lemma wsGenerateSignature_signature {E} z request (w : World) :
  fst (wsGenerateSignature (E:=E) z request w) = inl (signature z request).
Proof.
  unfold signature. unfold_statements.
  destruct (json_Marshal request); reflexivity.
Qed.

(** X12: when the command serializes, the signature is the HMAC in
    hexadecimal: two characters per byte, each one of 0-9 or a-f, and two
    signatures are equal only if the HMACs are. *)
Theorem signature_is_hex z request jsonResponse :
  json_Marshal request = Ok jsonResponse ->
  let hmac :=
    crypto_GetHMAC HashMD5 jsonResponse
      (bytes_of (crypto_Sha1ToHex (API_Credentials_Secret z))) in
  (forall w : World,
      fst (wsGenerateSignature (E:=Reply) z request w)
      = inl (signature z request))
  /\ String.length (signature z request) = (2 * length hmac)%nat
  /\ string_Forall is_hex_digit (signature z request)
  /\ forall z' request' jsonResponse',
       json_Marshal request' = Ok jsonResponse' ->
       signature z' request' = signature z request ->
       crypto_GetHMAC HashMD5 jsonResponse'
         (bytes_of (crypto_Sha1ToHex (API_Credentials_Secret z')))
       = hmac.
Proof.
  intros Hmarshal hmac. split; [intros w; apply wsGenerateSignature_signature|].
  unfold signature. rewrite Hmarshal. fold hmac.
  split; [apply Sprintf_x_length|]. split; [apply Sprintf_x_hex|].
  intros z' request' j' Hmarshal' Heq. rewrite Hmarshal' in Heq.
  apply Sprintf_x_inj, Heq.
Qed.

End SigningMore.

Lemma strings_Contains_app_r a b sub :
  strings_Contains b sub = true -> strings_Contains (a +:+ b) sub = true.
Proof.
  intros Hb. induction a as [|c a IH]; [exact Hb|].
  simpl. rewrite IH. apply orb_true_r.
Qed.

(** X13: the slice [GenerateDefaultSubscriptions] builds has one entry for
    the market channel, which comes first, and three per enabled pair,
    pairs that occur twice included.  Every entry names its pair without
    delimiter, and every channel in it is one the reader loop has a branch
    for. *)
Theorem default_subscriptions_shape z :
  length (default_subscriptions z)
  = (1 + 3 * length (GetEnabledPairs z asset.Spot))%nat
  /\ head (default_subscriptions z) = Some markets_subscription
  /\ forall s,
       s ∈ default_subscriptions z ->
       currency.Delimiter (wshandler.Currency s) = EmptyString
       /\ ~ unhandled_channel (wshandler.Channel s).
Proof.
  rewrite default_subscriptions_closed. split; [|split; [reflexivity|]].
  - simpl. rewrite !length_app, !length_fmap. lia.
  - intros s Hs.
    assert (Htopic : forall topic p,
               strings_Contains ("_" +:+ topic) topic = true ->
               (topic = "ticker" \/ topic = "depth" \/ topic = "trades")%string ->
               currency.Delimiter
                 (wshandler.Currency (topic_subscription topic (normalized p)))
               = EmptyString
               /\ ~ unhandled_channel
                      (wshandler.Channel
                         (topic_subscription topic (normalized p)))).
    { intros topic p Hc Ht. split; [reflexivity|].
      intros (Hm & Hti & Hd & Htr).
      pose proof (strings_Contains_app_r
                    (currency.String (normalized p)) _ _ Hc) as Hin.
      simpl in Hti, Hd, Htr.
      destruct Ht as [-> | [-> | ->]]; congruence. }
    apply elem_of_cons in Hs as [-> | Hs].
    { split; [reflexivity|]. intros (Hm & _). discriminate Hm. }
    rewrite !elem_of_app, !list_elem_of_fmap in Hs.
    destruct Hs as [(p & -> & _)|[(p & -> & _)|(p & -> & _)]];
      apply Htopic; auto.
Qed.

(** X14: [WsConnect] returns nil exactly when the websocket and the
    exchange are enabled and the dial succeeds.  It dials only when both
    are enabled, it starts the reader goroutine and generates the default
    subscriptions only after a dial that succeeded, and when it returns an
    error the channels to subscribe are as they were. *)
Theorem WsConnect_outcome z websocketEnabled exchangeEnabled dial channels :
  let '(err, steps, channels') :=
    WsConnect z websocketEnabled exchangeEnabled dial channels in
  (err = None <->
   websocketEnabled = true /\ exchangeEnabled = true /\ dial = None)
  /\ (err = Some WebsocketNotEnabled <->
      websocketEnabled = false \/ exchangeEnabled = false)
  /\ (Dial_call ∈ steps <-> websocketEnabled = true /\ exchangeEnabled = true)
  /\ (go_WsHandleData ∈ steps <-> err = None)
  /\ (GenerateDefaultSubscriptions_call ∈ steps <-> err = None)
  /\ channels'
     = match err with
       | None => GenerateDefaultSubscriptions z channels
       | Some _ => channels
       end.
Proof.
  unfold WsConnect.
  destruct websocketEnabled, exchangeEnabled, dial as [e|]; simpl;
    rewrite ?elem_of_cons, ?elem_of_nil;
    repeat split; intros; try discriminate; try tauto;
    repeat match goal with
           | Hx : _ /\ _ |- _ => destruct Hx
           | Hx : _ \/ _ |- _ => destruct Hx
           end; try discriminate; try tauto; auto.
Qed.

(* ===================================================================== *)
(** * How the reader loop ends *)
(* ===================================================================== *)

Section ReaderLoopEnds.
Context `{Collaborators}.

Lemma lookup_last_nonempty {A} (l : list A) :
  length l <> 0%nat -> is_Some (l !! (length l - 1)%nat).
Proof. intros Hne. apply lookup_lt_is_Some. lia. Qed.

(** X17: the only frames that make the loop panic are depth frames.  When
    the statements of a frame panic, the frame has parsed, it is no
    correlated reply, its code is no failure, its channel selects the
    depth branch, it has decoded as a depth frame, and an entry of its
    asks or of its bids is not well-formed; only the traffic alert has
    been sent. *)
Theorem panic_only_in_depth_branch z raw st p st' :
  handle_frame z raw st = (inr (Panic p), st') ->
  exists result depth,
    json_Unmarshal_Generic (wsFixInvalidJSON raw) = Ok result
    /\ Generic.No result <= 0
    /\ request_failed (Generic.Code result) = false
    /\ depth_channel (Generic.Channel result)
    /\ json_Unmarshal_WsDepth (wsFixInvalidJSON raw) = Ok depth
    /\ ~ (Forall well_formed_entry (WsDepth.Asks depth)
          /\ Forall well_formed_entry (WsDepth.Bids depth))
    /\ st' = emit st [TrafficAlert_send].
Proof.
  unfold handle_frame. unfold_statements.
  destruct (json_Unmarshal_Generic _) as [result|] eqn:Hparse; [|discriminate].
  destruct (bool_decide (Generic.No result > 0)) eqn:Hno; [discriminate|].
  apply bool_decide_eq_false in Hno.
  destruct (request_failed _) eqn:Hcode; [discriminate|].
  destruct (strings_Contains (Generic.Channel result) "markets") eqn:Hm.
  { destruct (json_Unmarshal_Markets _); discriminate. }
  destruct (strings_Contains (Generic.Channel result) "ticker") eqn:Ht.
  { destruct (json_Unmarshal_WsTicker _); [|discriminate].
    destruct (strings_Split_head (Generic.Channel result) "_") as [i Hi].
    rewrite lookup_0_head, Hi. discriminate. }
  destruct (strings_Contains (Generic.Channel result) "depth") eqn:Hd.
  { destruct (json_Unmarshal_WsDepth _) as [depth|] eqn:Hdepth; [|discriminate].
    intros Hrun. exists result, depth.
    repeat split; try assumption; try lia.
    - intros [Hasks Hbids]. revert Hrun.
      rewrite (append_items_well_formed _ [] _ Hasks).
      rewrite (append_items_well_formed _ [] _ Hbids).
      destruct (strings_Split_head (Generic.Channel result) "_") as [i Hi].
      rewrite lookup_0_head, Hi. simpl.
      destruct (Orderbook_LoadSnapshot _ _) as [book' [err|]]; discriminate.
    - revert Hrun.
      do 2 (match goal with |- context [append_items ?e ?i ?s] =>
              let Hs := fresh "Hs" in
              pose proof (append_items_state e i s) as Hs;
              destruct (append_items e i s) as [[?|[|?]] ?];
              simpl in Hs; subst;
              try discriminate; try (intros [= _ <-]; reflexivity)
            end).
      destruct (strings_Split_head (Generic.Channel result) "_") as [i Hi].
      rewrite lookup_0_head, Hi. simpl.
      destruct (Orderbook_LoadSnapshot _ _) as [book' [err|]]; discriminate. }
  destruct (strings_Contains (Generic.Channel result) "trades") eqn:Htr;
    [|discriminate].
  destruct (json_Unmarshal_WsTrades _) as [trades|]; [|discriminate].
  destruct (bool_decide _) eqn:Hlen; [discriminate|].
  apply bool_decide_eq_false in Hlen.
  destruct (lookup_last_nonempty _ Hlen) as [t ->].
  destruct (strings_Split_head (Generic.Channel result) "_") as [i Hi].
  rewrite lookup_0_head, Hi. discriminate.
Qed.

(** X18: frames never make the loop return.  When the loop has returned,
    the input holds, after frames only, a shutdown or a failure of
    [ReadMessage]; and the error channel [ReadMessageErrors] has been
    written to exactly when it was such a failure, with that error as the
    last event. *)
Theorem returns_only_on_shutdown_or_read_error z incoming st st' :
  WsHandleData_loop z incoming st = (Returned, st') ->
  exists frames final rest,
    incoming = (ReadMessage_frame <$> frames) ++ final :: rest
    /\ (final = ShutdownC_closed
        \/ exists err, final = ReadMessage_error err
                       /\ last (sent st') = Some (ReadMessageErrors_send err)).
Proof.
  revert st. induction incoming as [|[|err|raw] incoming IH]; intros st.
  - discriminate.
  - intros _. exists [], ShutdownC_closed, incoming. split; [reflexivity|].
    left; reflexivity.
  - simpl. unfold_statements. intros [= <-].
    exists [], (ReadMessage_error err), incoming. split; [reflexivity|].
    right. exists err. split; [reflexivity|]. simpl. apply last_snoc.
  - rewrite WsHandleData_loop_frame.
    destruct (handle_frame z raw st) as [[[]|[|p]] st1]; try discriminate;
      intros Hrun; apply IH in Hrun as (frames & final & rest & -> & Hfinal);
      exists (raw :: frames), final, rest; (split; [reflexivity|exact Hfinal]).
Qed.

End ReaderLoopEnds.

(* ===================================================================== *)
(** * The further properties on concrete input *)
(* ===================================================================== *)

Section MoreWitnesses.
Import Fixtures2.

Local Abbreviation D2 := Fixtures2.doubles.
Local Abbreviation zb := (Fixtures.zb true).

Lemma empty_trade_batch_dropped_witness :
  json_Unmarshal_WsTrades (Collaborators:=D2) (wsFixInvalidJSON frame_trades_empty)
  = Ok {| WsTrades.Data := [] |}
  /\ handle_frame (H:=D2) zb frame_trades_empty idle
     = (inr Continue, emit idle [TrafficAlert_send]).
Proof.
  split; [vm_compute; reflexivity|].
  apply (proj1 (empty_trade_batch_dropped (H:=D2) zb frame_trades_empty
                  (Fixtures.generic 0 0 EmptyString "btcusdt_trades" [])
                  {| WsTrades.Data := [] |} [] idle
                  ltac:(vm_compute; reflexivity) ltac:(simpl; lia)
                  ltac:(reflexivity)
                  ltac:(repeat split; vm_compute; reflexivity)
                  ltac:(vm_compute; reflexivity) eq_refl)).
Defined.

Lemma ticker_frame_mapping_witness :
  json_Unmarshal_WsTicker (Collaborators:=D2) (wsFixInvalidJSON frame_ticker)
  = Ok ticker_data
  /\ exists instrument,
       head (strings_Split "btcusdt_ticker" "_") = Some instrument
       /\ handle_frame (H:=D2) zb frame_ticker idle
          = (inl tt,
             emit idle
               [TrafficAlert_send;
                DataHandler_send (DH_ticker_Price
                  {| ticker.ExchangeName := "ZB";
                     ticker.Close := 8250.75%float;
                     ticker.Volume := 120.5%float;
                     ticker.High := 8500%float;
                     ticker.Low := 8000%float;
                     ticker.Last := 8250.75%float;
                     ticker.Bid := 8250.5%float;
                     ticker.Ask := 8251%float;
                     ticker.LastUpdated := time.Unix 0 1569839160000000000;
                     ticker.AssetType := asset.Spot;
                     ticker.Pair :=
                       currency_NewPairFromString (Collaborators:=D2) instrument |})]).
Proof.
  split; [vm_compute; reflexivity|].
  apply (ticker_frame_mapping (H:=D2) zb frame_ticker
           (Fixtures.generic 0 0 EmptyString "btcusdt_ticker" [])
           ticker_data idle).
  - vm_compute. reflexivity.
  - simpl. lia.
  - reflexivity.
  - split; vm_compute; reflexivity.
  - vm_compute. reflexivity.
  - simpl. lia.
Defined.

Lemma markets_frame_forwards_nothing_witness :
  strings_Contains "markets_ticker" "markets" = true
  /\ strings_Contains "markets_ticker" "ticker" = true
  /\ handle_frame (H:=D2) zb frame_markets_ticker idle
     = (inl tt, emit idle [TrafficAlert_send]).
Proof.
  split; [reflexivity|]. split; [reflexivity|].
  exact (markets_frame_forwards_nothing (H:=D2) zb frame_markets_ticker
           (Fixtures.generic 0 0 EmptyString "markets_ticker" (bytes_of "{}"))
           idle ltac:(vm_compute; reflexivity) ltac:(simpl; lia)
           ltac:(reflexivity) ltac:(reflexivity)).
Defined.

Lemma depth_frame_snapshot_witness :
  Forall well_formed_entry (WsDepth.Asks depth_data)
  /\ Forall well_formed_entry (WsDepth.Bids depth_data)
  /\ exists instrument,
       head (strings_Split "btcusdt_depth" "_") = Some instrument
       /\ handle_frame (H:=D2) zb frame_depth idle
          = (inl tt,
             @Build_LoopState D2
               [{| orderbook.Asks :=
                     [{| orderbook.Amount := 0.5%float;
                         orderbook.Price := 8251%float |};
                      {| orderbook.Amount := 1.5%float;
                         orderbook.Price := 8252%float |}];
                   orderbook.Bids :=
                     [{| orderbook.Amount := 2%float;
                         orderbook.Price := 8250%float |}];
                   orderbook.AssetType := asset.Spot;
                   orderbook.Pair :=
                     currency_NewPairFromString (Collaborators:=D2) instrument;
                   orderbook.ExchangeName := "ZB" |}]
               [TrafficAlert_send;
                DataHandler_send (DH_WebsocketOrderbookUpdate
                  {| wshandler.ou_Pair :=
                       currency_NewPairFromString (Collaborators:=D2) instrument;
                     wshandler.ou_Asset := asset.Spot;
                     wshandler.ou_Exchange := "ZB" |})]).
Proof.
  assert (Hasks : Forall well_formed_entry (WsDepth.Asks depth_data))
    by (repeat constructor; eexists _, _, _; reflexivity).
  assert (Hbids : Forall well_formed_entry (WsDepth.Bids depth_data))
    by (repeat constructor; eexists _, _, _; reflexivity).
  split; [exact Hasks|]. split; [exact Hbids|].
  exact (depth_frame_snapshot (H:=D2) zb frame_depth
           (Fixtures.generic 0 0 EmptyString "btcusdt_depth" [])
           depth_data idle
           ltac:(vm_compute; reflexivity) ltac:(simpl; lia) ltac:(reflexivity)
           ltac:(repeat split; vm_compute; reflexivity)
           ltac:(vm_compute; reflexivity) Hasks Hbids).
Defined.

Lemma operation_sends_one_signed_request_witness :
  GetAuthenticatedAPISupport zb WebsocketAuthentication = true
  /\ calls (snd (run (perform (H:=D2) zb (AddSubUser "user" "password"))
                     (world [Ok Fixtures.reply_ok])))
     = [Called_GenerateMessageID true 1;
        Called_wsGenerateSignature
          (unsigned_request zb (AddSubUser "user" "password") 1);
        Called_log_Error {| origin := "json"; text := "unsupported value" |};
        Called_SendMessageReturnResponse 1
          (unsigned_request zb (AddSubUser "user" "password") 1)].
Proof.
  split; [reflexivity|].
  exact (proj2 (proj2 (proj2
           (operation_sends_one_signed_request (H:=D2) zb
              (AddSubUser "user" "password") (world [Ok Fixtures.reply_ok])
              eq_refl)))).
Defined.



Lemma signature_is_hex_witness :
  json_Marshal (Collaborators:=D2) (unsigned_request zb GetSubUserList 1)
  = Ok (bytes_of "getSubUserList,addChannel,key")
  /\ String.length (signature (H:=D2) zb (unsigned_request zb GetSubUserList 1))
     = 70%nat
  /\ string_Forall is_hex_digit
       (signature (H:=D2) zb (unsigned_request zb GetSubUserList 1)).
Proof.
  assert (Hm : json_Marshal (Collaborators:=D2)
                 (unsigned_request zb GetSubUserList 1)
               = Ok (bytes_of "getSubUserList,addChannel,key"))
    by reflexivity.
  split; [exact Hm|].
  destruct (signature_is_hex (H:=D2) zb _ _ Hm) as (_ & Hlen & Hhex & _).
  split; [exact Hlen|exact Hhex].
Defined.

Lemma repair_takes_longest_match_witness :
  Find invalidZbJSONRegex frame_two_arrays = Some span_two_arrays
  /\ exists pre post,
       frame_two_arrays = pre ++ span_two_arrays ++ post
       /\ forall m' post',
           span_two_arrays ++ post = m' ++ post' ->
           Matches invalidZbJSONRegex m' ->
           (length m' <= length span_two_arrays)%nat.
Proof.
  assert (Hfind : Find invalidZbJSONRegex frame_two_arrays
                  = Some span_two_arrays) by (vm_compute; reflexivity).
  split; [exact Hfind|].
  exact (repair_takes_longest_match frame_two_arrays span_two_arrays Hfind).
Defined.

Lemma panic_only_in_depth_branch_witness :
  handle_frame (H:=D2) zb frame_depth_short idle
  = (inr (Panic (IndexOutOfRange 1 1)), emit idle [TrafficAlert_send])
  /\ exists result depth,
       json_Unmarshal_Generic (Collaborators:=D2)
         (wsFixInvalidJSON frame_depth_short) = Ok result
       /\ Generic.No result <= 0
       /\ request_failed (Generic.Code result) = false
       /\ depth_channel (Generic.Channel result)
       /\ json_Unmarshal_WsDepth (Collaborators:=D2)
            (wsFixInvalidJSON frame_depth_short) = Ok depth
       /\ ~ (Forall well_formed_entry (WsDepth.Asks depth)
             /\ Forall well_formed_entry (WsDepth.Bids depth))
       /\ emit idle [TrafficAlert_send] = emit idle [TrafficAlert_send].
Proof.
  assert (Hrun : handle_frame (H:=D2) zb frame_depth_short idle
                 = (inr (Panic (IndexOutOfRange 1 1)),
                    emit idle [TrafficAlert_send])) by reflexivity.
  split; [exact Hrun|].
  exact (panic_only_in_depth_branch (H:=D2) zb frame_depth_short idle _ _ Hrun).
Defined.

Lemma returns_only_on_shutdown_or_read_error_witness :
  let incoming :=
    [ReadMessage_frame frame_trades_empty;
     ReadMessage_error Fixtures.read_closed;
     ReadMessage_frame frame_ticker] in
  let st' := snd (WsHandleData_loop (H:=D2) zb incoming idle) in
  WsHandleData_loop (H:=D2) zb incoming idle = (Returned, st')
  /\ exists frames final rest,
       incoming = (ReadMessage_frame <$> frames) ++ final :: rest
       /\ (final = ShutdownC_closed
           \/ exists err, final = ReadMessage_error err
                          /\ last (sent st') = Some (ReadMessageErrors_send err)).
Proof.
  intros incoming st'.
  assert (Hrun : WsHandleData_loop (H:=D2) zb incoming idle = (Returned, st'))
    by reflexivity.
  split; [exact Hrun|].
  exact (returns_only_on_shutdown_or_read_error (H:=D2) zb incoming idle st' Hrun).
Defined.

End MoreWitnesses.
